(** * Change-detection strategies of [cd-aware/strategy.ts]

    A shallow embedding of
    [libs/ngrx-component-experiments/src/lib/core/cd-aware/strategy.ts]:
    the four rendering strategies ([native], [noop], [global], [local]),
    the strategy registry [getStrategies] and the duration selector that
    closes a coalescing window.

    The host (Angular, zone.js, the browser) is a [World]: the answers it
    gives to the imported helpers, the mutable objects the code reads, and
    a log of the host calls made so far.  Code that talks to the host runs
    in the state-and-exception monad [M]. *)

From stdpp Require Import base option list strings pretty gmap fin_maps.
From Stdlib Require Import NArith Lia.

Open Scope string_scope.
Open Scope list_scope.
Open Scope stdpp_scope.

(* ------------------------------------------------------------------ *)
(** ** The host world *)

(** A JavaScript object identity.  [None] is [undefined]. *)
Abbreviation Ctx := (option N).

(** The two internal fields of a [ChangeDetectorRef] that
    [createLocalStrategy] reads. *)
Record ChangeDetectorRef := {
  _lView : Ctx;
  context : Ctx;
}.

(** [StrategyFactoryConfig]: [component] is an opaque identity; [cdRef]
    is a handle for the value of [cfg.cdRef].  The host says what a
    handle stands for: a [ChangeDetectorRef] object when the heap has it,
    a primitive value (a number, a string, a boolean) when it is listed
    as one, and [undefined] or [null] otherwise. *)
Record StrategyFactoryConfig := {
  component : N;
  cdRef : N;
}.

(** Calls into the host, as they are logged in the world. *)
Inductive HostCall :=
| Call_isViewEngineIvy
| Call_apiZonePatched (name : string)
| Call_generateFrames (id : N)
| Call_markForCheck (ref : N)          (* cdRef.markForCheck() *)
| Call_cdRef_detectChanges (ref : N)   (* cdRef.detectChanges() *)
| Call_markDirty (comp : N)            (* ɵmarkDirty(component) *)
| Call_detectChanges (comp : N)        (* ɵdetectChanges(component) *)
| Call_Promise_resolve (zoneSymbol : bool).

(** Which constructor a promise was made by: the one zone.js saved under
    [__zone_symbol__Promise], or the ambient [Promise]. *)
Record JsPromise := {
  promise_id : N;
  fromZoneSymbol : bool;
}.

Record World := {
  ivy : bool;                         (* what isViewEngineIvy() answers *)
  zonePatched : string -> bool;       (* what apiZonePatched(name) answers *)
  zoneSymbolPromise : bool;           (* is __zone_symbol__Promise defined *)
  heap : gmap N ChangeDetectorRef;    (* live ChangeDetectorRef objects *)
  primitives : gset N;                (* handles of primitive values *)
  resolvedPromise : option JsPromise; (* the module-level [let] *)
  nextId : N;                         (* next fresh object identity *)
  calls : list HostCall;              (* host calls so far, oldest first *)
}.

Definition logCall (c : HostCall) (w : World) : World :=
  {| ivy := ivy w; zonePatched := zonePatched w;
     zoneSymbolPromise := zoneSymbolPromise w; heap := heap w;
     primitives := primitives w;
     resolvedPromise := resolvedPromise w; nextId := nextId w;
     calls := calls w ++ [c] |}.

Definition bumpId (w : World) : World :=
  {| ivy := ivy w; zonePatched := zonePatched w;
     zoneSymbolPromise := zoneSymbolPromise w; heap := heap w;
     primitives := primitives w;
     resolvedPromise := resolvedPromise w; nextId := N.succ (nextId w);
     calls := calls w |}.

Definition setResolvedPromise (p : JsPromise) (w : World) : World :=
  {| ivy := ivy w; zonePatched := zonePatched w;
     zoneSymbolPromise := zoneSymbolPromise w; heap := heap w;
     primitives := primitives w;
     resolvedPromise := Some p; nextId := nextId w;
     calls := calls w |}.

(* ------------------------------------------------------------------ *)
(** ** The monad of host code *)

Inductive JsError :=
| TypeError (msg : string).

Inductive Outcome (A : Type) :=
| Returned (a : A)
| Thrown (e : JsError).
Arguments Returned {A} a.
Arguments Thrown {A} e.

Definition M (A : Type) : Type := World -> Outcome A * World.

Definition ret {A} (a : A) : M A := fun w => (Returned a, w).

Definition bind {A B} (m : M A) (k : A -> M B) : M B :=
  fun w =>
    match m w with
    | (Returned a, w') => k a w'
    | (Thrown e, w') => (Thrown e, w')
    end.

Definition throw {A} (e : JsError) : M A := fun w => (Thrown e, w).

Definition getWorld : M World := fun w => (Returned w, w).

Definition modifyWorld (f : World -> World) : M unit :=
  fun w => (Returned tt, f w).

#[global] Instance M_ret : MRet M := @ret.
#[global] Instance M_bind : MBind M := fun A B k m => bind m k.

(** Result and final world of a run. *)
Definition outcome {A} (m : M A) (w : World) : Outcome A := fst (m w).
Definition after {A} (m : M A) (w : World) : World := snd (m w).

(** The host calls a run adds to the log. *)
Definition callsOf {A} (m : M A) (w : World) : list HostCall :=
  drop (length (calls w)) (calls (after m w)).

(* ------------------------------------------------------------------ *)
(** ** Imported helpers *)

(** Modelled from the spec: [isViewEngineIvy] of [@ts-etc] is not part of
    the sources; it is the "flag indicating which host-engine variant is
    active", read from the host each time it is called. *)
Definition isViewEngineIvy : M bool :=
  modifyWorld (logCall Call_isViewEngineIvy);;
  w ← getWorld; ret (ivy w).

(** Modelled from the spec: [apiZonePatched] of [@ts-etc] is not part of
    the sources; it is the "boolean-producing check: is the ambient
    promise/task scheduler monkey-patched for interception". *)
Definition apiZonePatched (name : string) : M bool :=
  modifyWorld (logCall (Call_apiZonePatched name));;
  w ← getWorld; ret (zonePatched w name).

(** [config.cdRef.markForCheck()]: a method call on the object of the
    handle; a [TypeError] when the handle has no object (a primitive has
    no such method, [undefined] and [null] have no properties). *)
Definition cdRef_markForCheck (ref : N) : M unit :=
  w ← getWorld;
  match heap w !! ref with
  | Some _ => modifyWorld (logCall (Call_markForCheck ref))
  | None => throw (TypeError "markForCheck")
  end.

(** [cfg.cdRef.detectChanges()]. *)
Definition cdRef_detectChanges (ref : N) : M unit :=
  w ← getWorld;
  match heap w !! ref with
  | Some _ => modifyWorld (logCall (Call_cdRef_detectChanges ref))
  | None => throw (TypeError "detectChanges")
  end.

(** [ɵmarkDirty(component)] and [ɵdetectChanges(component)] of
    [@angular/core]. *)
Definition markDirty (comp : N) : M unit :=
  modifyWorld (logCall (Call_markDirty comp)).

Definition detectChanges (comp : N) : M unit :=
  modifyWorld (logCall (Call_detectChanges comp)).

(** Reading a field of [cfg.cdRef]: the field of the object; [undefined]
    when [cfg.cdRef] is a primitive, which has no such property; a
    [TypeError] when [cfg.cdRef] is [undefined] or [null]. *)
Definition cdRef_field (f : ChangeDetectorRef -> Ctx) (ref : N)
  : M Ctx :=
  w ← getWorld;
  match heap w !! ref with
  | Some o => ret (f o)
  | None =>
      if bool_decide (ref ∈ primitives w) then ret None
      else throw (TypeError "cdRef")
  end.

(* ------------------------------------------------------------------ *)
(** ** Tick sources and the duration selector *)

Inductive TickMode := FrameMode | MicrotaskMode.

(** A tick source: the [Observable<number>] a duration selector returns. *)
Record TickSource := {
  tick_id : N;
  tick_mode : TickMode;
}.

(** Modelled from the spec: [generateFrames] of [../rxjs/observable] is
    not part of the sources; it is the "frame-based selector (fires once
    per display-refresh cycle)", and each call "yields an independent,
    restartable tick source (not a shared singleton)": a new observable
    with an identity of its own. *)
Definition generateFrames : M TickSource :=
  w ← getWorld;
  let t := {| tick_id := nextId w; tick_mode := FrameMode |} in
  modifyWorld bumpId;;
  modifyWorld (logCall (Call_generateFrames (tick_id t)));;
  ret t.

Definition DurationSelector := unit -> M TickSource.

(** [getZoneUnPatchedDurationSelector]: returns [() => generateFrames()]. *)
Definition getZoneUnPatchedDurationSelector (_ : unit) : DurationSelector :=
  fun _ => generateFrames.

(** [Promise.resolve()] on one of the two constructors; the zone symbol
    one is a property read on [getGlobalThis()] that may be [undefined]. *)
Definition Promise_resolve (zoneSymbol : bool) : M JsPromise :=
  w ← getWorld;
  if zoneSymbol && negb (zoneSymbolPromise w)
  then throw (TypeError "__zone_symbol__Promise")
  else
    modifyWorld bumpId;;
    modifyWorld (logCall (Call_Promise_resolve zoneSymbol));;
    ret {| promise_id := nextId w; fromZoneSymbol := zoneSymbol |}.

(** [getResolvedPromise].  In JavaScript [a || b ? c : d] is
    [(a || b) ? c : d], and [||] does not evaluate [b] when [a] is
    truthy. *)
Definition getResolvedPromise : M JsPromise :=
  w ← getWorld;
  cond ← match resolvedPromise w return M bool with
          | Some _ => ret true
          | None => apiZonePatched "Promise"
          end;
  p ← (if cond : bool then Promise_resolve true
       else Promise_resolve false) : M JsPromise;
  modifyWorld (setResolvedPromise p);;
  ret p.

(* ------------------------------------------------------------------ *)
(** ** Notification streams *)

(** What a subscriber sees, in the order it happens: a notification of
    the source, the instant the pending tick of a context fires, the end
    of the source, or its failure. *)
Inductive Signal (T : Type) :=
| Next (v : T)
| TickFire (c : Ctx)
| Complete
| Error (e : JsError).
Arguments Next {T} v.
Arguments TickFire {T} c.
Arguments Complete {T}.
Arguments Error {T} e.

Definition Timeline (T : Type) := list (Signal T).

(** A cold observable: subscribing runs in the host and delivers a
    timeline. *)
Definition Observable (T : Type) := M (Timeline T).

Definition MonoTypeOperatorFunction (T : Type) :=
  Observable T -> Observable T.

(** The notifications of a timeline, in order. *)
Definition notifications {T} (tl : Timeline T) : list T :=
  omap (fun s => match s with Next v => Some v | _ => None end) tl.

(** [CoalesceConfig]; its one field is [context]. *)
Record CoalesceConfig := {
  config_context : Ctx;
}.

(** [any]: the values [createNoopStrategy] may be handed. *)
Inductive JsValue :=
| JsUndefined
| JsNull
| JsBoolean (b : bool)
| JsNumber (n : Z)
| JsString (s : string)
| JsObject (addr : N)
| JsConfig (cfg : StrategyFactoryConfig).

Section Strategies.

Variable T : Type.

(** A pending entry: the latest notification of an open window and the
    tick subscription that will close it. *)
Record PendingEntry := {
  latest : T;
  tickSubscription : TickSource;
}.

(** Modelled from the spec: the [coalesce] operator of
    [../rxjs/operators] is not part of the sources.  Spec 4.2: on a
    notification for a context with no pending entry, create one, store
    the notification as latest and start a tick subscription; otherwise
    overwrite the latest value only.  On the tick of an entry, forward
    the stored latest notification and delete the entry.  On completion,
    forward what is still pending, then complete.  On failure, propagate
    it and discard what is pending.  Every notification that passes the
    operator belongs to the context of its config. *)
Fixpoint coalesceRun (durationSelector : DurationSelector) (c : Ctx)
    (pending : gmap (option N) PendingEntry) (tl : Timeline T)
  : M (Timeline T) :=
  match tl with
  | [] => ret []
  | Next v :: tl' =>
      match pending !! c with
      | None =>
          t ← durationSelector tt;
          coalesceRun durationSelector c
            (<[c := {| latest := v; tickSubscription := t |}]> pending) tl'
      | Some e =>
          coalesceRun durationSelector c
            (<[c := {| latest := v;
                       tickSubscription := tickSubscription e |}]> pending)
            tl'
      end
  | TickFire c' :: tl' =>
      match pending !! c' with
      | Some e =>
          rest ← coalesceRun durationSelector c (delete c' pending) tl';
          ret (TickFire c' :: Next (latest e) :: rest)
      | None =>
          rest ← coalesceRun durationSelector c pending tl';
          ret (TickFire c' :: rest)
      end
  | Complete :: _ =>
      ret (((fun kv => Next (latest (snd kv))) <$> map_to_list pending)
             ++ [Complete])
  | Error e :: _ => ret [Error e]
  end.

Definition coalesce (durationSelector : DurationSelector)
    (config : CoalesceConfig) : MonoTypeOperatorFunction T :=
  fun source =>
    tl ← source;
    coalesceRun durationSelector (config_context config) ∅ tl.

(** [CdStrategy<T>]. *)
Record CdStrategy := {
  behaviour : unit -> MonoTypeOperatorFunction T;
  render : unit -> M unit;
  name : string;
}.

Definition DEFAULT_STRATEGY_NAME : string := "local".

Definition createNativeStrategy (config : StrategyFactoryConfig)
  : CdStrategy :=
  {| render := fun _ => cdRef_markForCheck (cdRef config);
     behaviour := fun _ => fun o => o;
     name := "native" |}.

Definition createNoopStrategy (cfg : option JsValue) : CdStrategy :=
  {| render := fun _ => ret tt;
     behaviour := fun _ => fun o => o;
     name := "noop" |}.

Definition createGlobalStrategy (cfg : StrategyFactoryConfig)
  : M CdStrategy :=
  inIvy ← isViewEngineIvy;
  let render := fun _ : unit =>
    if negb inIvy then cdRef_markForCheck (cdRef cfg)
    else markDirty (component cfg) in
  let behaviour := fun _ : unit => fun o' : Observable T => o' in
  ret {| behaviour := behaviour; render := render; name := "global" |}.

Definition createLocalStrategy (cfg : StrategyFactoryConfig)
  : M CdStrategy :=
  inIvy ← isViewEngineIvy;
  let durationSelector := getZoneUnPatchedDurationSelector tt in
  ctx ← (if inIvy then cdRef_field _lView (cdRef cfg)
         else cdRef_field context (cdRef cfg));
  let coalesceConfig := {| config_context := ctx |} in
  let render := fun _ : unit =>
    if negb inIvy then cdRef_detectChanges (cdRef cfg)
    else detectChanges (component cfg) in
  let behaviour := fun _ : unit => fun o' : Observable T =>
    coalesce durationSelector coalesceConfig o' in
  ret {| behaviour := behaviour; render := render; name := "local" |}.

(** [StrategySelection<T>]: an object used as a map from names to
    strategies (its own properties). *)
Definition getStrategies (cfg : StrategyFactoryConfig)
  : M (gmap string CdStrategy) :=
  let native := createNativeStrategy cfg in
  let noop := createNoopStrategy None in
  global ← createGlobalStrategy cfg;
  local ← createLocalStrategy cfg;
  ret (<["native" := native]>
       (<["noop" := noop]>
        (<["global" := global]>
         (<["local" := local]> ∅)))).

End Strategies.

Arguments latest {T} _.
Arguments tickSubscription {T} _.
Arguments behaviour {T} _.
Arguments render {T} _.
Arguments name {T} _.

(* ------------------------------------------------------------------ *)
(** ** Sample hosts *)

(** A host on the current engine with zone.js loaded and one live
    [ChangeDetectorRef] at address 7. *)
Definition ivyZoneWorld : World :=
  {| ivy := true; zonePatched := fun _ => true; zoneSymbolPromise := true;
     heap := {[ 7%N := {| _lView := Some 100%N; context := Some 200%N |} ]};
     primitives := ∅;
     resolvedPromise := None; nextId := 0%N; calls := [] |}.

(** The same host on the legacy engine, without zone.js. *)
Definition legacyWorld : World :=
  {| ivy := false; zonePatched := fun _ => false;
     zoneSymbolPromise := false;
     heap := {[ 7%N := {| _lView := None; context := Some 200%N |} ]};
     primitives := ∅;
     resolvedPromise := None; nextId := 0%N; calls := [] |}.

Definition sampleConfig : StrategyFactoryConfig :=
  {| component := 3%N; cdRef := 7%N |}.

(** A legacy host in which the [ChangeDetectorRef] is gone. *)
Definition detachedWorld : World :=
  {| ivy := false; zonePatched := fun _ => false;
     zoneSymbolPromise := false; heap := ∅; primitives := ∅;
     resolvedPromise := None; nextId := 0%N; calls := [] |}.

(** A config whose [cdRef] is [undefined]: its handle stands for
    nothing in the sample hosts. *)
Definition danglingConfig : StrategyFactoryConfig :=
  {| component := 3%N; cdRef := 8%N |}.

(** A host in which the handle 9 stands for a primitive value, and a
    config whose [cdRef] is that value. *)
Definition primitiveWorld : World :=
  {| ivy := true; zonePatched := fun _ => false;
     zoneSymbolPromise := false; heap := ∅; primitives := {[ 9%N ]};
     resolvedPromise := None; nextId := 0%N; calls := [] |}.

Definition primitiveConfig : StrategyFactoryConfig :=
  {| component := 3%N; cdRef := 9%N |}.

(** What the spec asks of a request for the duration selector in host
    [w]: the detection check is called, and its answer picks the mode. *)
Definition selectsModeByDetection (w : World) : Prop :=
  let request := getZoneUnPatchedDurationSelector tt tt in
  Call_apiZonePatched "Promise" ∈ callsOf request w ∧
  tick_mode <$> (match outcome request w with
                 | Returned t => Some t
                 | Thrown _ => None
                 end)
  = Some (if zonePatched w "Promise" then MicrotaskMode else FrameMode).

(** Invoking each producer of a list, in order. *)
Fixpoint invokeEach (producers : list DurationSelector)
  : M (list TickSource) :=
  match producers with
  | [] => ret []
  | p :: ps => t ← p tt; ts ← invokeEach ps; ret (t :: ts)
  end.

(** The signals that may fall inside an open window of context [k]:
    notifications, and ticks of other contexts. *)
Definition inWindow {T} (k : Ctx) (s : Signal T) : bool :=
  match s with
  | Next _ => true
  | TickFire c => bool_decide (c ≠ k)
  | _ => false
  end.

Definition isTick {T} (s : Signal T) : bool :=
  match s with TickFire _ => true | _ => false end.

(** The strategy objects the two host-dependent factories build once
    they have read the engine flag (and, for [local], the context key). *)
Definition globalStrategyOf (T : Type) (inIvy : bool)
    (cfg : StrategyFactoryConfig) : CdStrategy T :=
  {| behaviour := fun _ o => o;
     render := fun _ =>
       if negb inIvy then cdRef_markForCheck (cdRef cfg)
       else markDirty (component cfg);
     name := "global" |}.

Definition localStrategyOf (T : Type) (inIvy : bool) (ctx : Ctx)
    (cfg : StrategyFactoryConfig) : CdStrategy T :=
  {| behaviour := fun _ o =>
       coalesce T (getZoneUnPatchedDurationSelector tt)
         {| config_context := ctx |} o;
     render := fun _ =>
       if negb inIvy then cdRef_detectChanges (cdRef cfg)
       else detectChanges (component cfg);
     name := "local" |}.

(** The context key [createLocalStrategy] reads in host [w]. *)
Definition contextKey (w : World) (o : ChangeDetectorRef) : Ctx :=
  if ivy w then _lView o else context o.

(** The strategy names of the registry. *)
Definition strategyNames : list string :=
  ["native"; "noop"; "global"; "local"].

(** The names every object literal inherits from [Object.prototype]. *)
Definition objectPrototypeNames : list string :=
  ["constructor"; "__defineGetter__"; "__defineSetter__";
   "hasOwnProperty"; "__lookupGetter__"; "__lookupSetter__";
   "isPrototypeOf"; "propertyIsEnumerable"; "toString"; "valueOf";
   "__proto__"; "toLocaleString"].

(** What [strategies[name]] evaluates to. *)
Inductive PropertyValue (T : Type) :=
| OwnStrategy (s : CdStrategy T)
| InheritedFromObject (name : string)
| NotFound.
Arguments OwnStrategy {T} s.
Arguments InheritedFromObject {T} name.
Arguments NotFound {T}.

(** [strategies[name]] on the object [getStrategies] returns: its own
    property of that name if it has one, else what [Object.prototype]
    has under the name, else [undefined].  The lookup never throws. *)
Definition getProperty {T} (strategies : gmap string (CdStrategy T))
    (name : string) : PropertyValue T :=
  match strategies !! name with
  | Some s => OwnStrategy s
  | None =>
      if bool_decide (name ∈ objectPrototypeNames)
      then InheritedFromObject name
      else NotFound
  end.

(** What the spec asks of lookups in the registry: every name other
    than the four gives the absent result. *)
Definition unknownNamesNotFound {T}
    (strategies : gmap string (CdStrategy T)) : Prop :=
  forall name : string,
    name ∉ strategyNames ->
    getProperty strategies name = NotFound.

(** Calling a host action [n] times in a row, as a consumer that
    renders once per notification does. *)
Fixpoint repeatM (n : nat) (m : M unit) : M unit :=
  match n with
  | O => ret tt
  | S n' => m;; repeatM n' m
  end.

(* ------------------------------------------------------------------ *)
(** ** The item generator of the iterable-differ demo

    The module-level part of the [RxIterableDifferComponent] file: the
    counter [itemIdx], [getNewItem], [getItems], the change sets built
    from them when the module loads, and the two small members of the
    class that do not need the template.  The counter is threaded
    through the functions. *)

Module RxIterableDiffer.

(** A JavaScript number that counts up from 0 in steps of one: exact up
    to 2^53, where adding one gives back the same number. *)
Definition MAX_EXACT : N := 2 ^ 53.

Definition increment (n : N) : N :=
  if (n <? MAX_EXACT)%N then N.succ n else n.

(** [n.toString()] of such a number: its decimal digits. *)
Definition toString (n : N) : string := pretty n.

(** [array.join('')]. *)
Definition join (parts : list string) : string :=
  foldr String.append "" parts.

Record Item := {
  id : string;
  value : string;
}.

(** [getNewItem]: reads the counter, then [++itemIdx]. *)
Definition getNewItem (itemIdx : N) : Item * N :=
  let _idx := toString itemIdx in
  let i := {| id := _idx;
              value := join (toString <$>
                               ((fun _ : unit => itemIdx) <$>
                                  replicate 4 tt)) |} in
  (i, increment itemIdx).

Inductive ArrayError :=
| RangeError (msg : string).

(** The largest length [new Array(num)] accepts. *)
Definition MAX_ARRAY_LENGTH : Z := 2 ^ 32 - 1.

(** [array.map(_ => getNewItem())] over an array of [n] slots. *)
Fixpoint mapGetNewItem (n : nat) (itemIdx : N) : list Item * N :=
  match n with
  | O => ([], itemIdx)
  | S n' =>
      let (i, itemIdx') := getNewItem itemIdx in
      let (rest, itemIdx'') := mapGetNewItem n' itemIdx' in
      (i :: rest, itemIdx'')
  end.

(** [getItems]: [new Array(num)] throws a [RangeError] unless [num] is
    an array length. *)
Definition getItems (num : Z) (itemIdx : N)
  : (ArrayError + list Item) * N :=
  if ((num <? 0)%Z || (MAX_ARRAY_LENGTH <? num)%Z)%bool
  then (inl (RangeError "Invalid array length"), itemIdx)
  else
    let (items, itemIdx') := mapGetNewItem (Z.to_nat num) itemIdx in
    (inr items, itemIdx').

(** [{ ...item, value: v }]. *)
Definition withValue (item : Item) (v : string) : Item :=
  {| id := id item; value := v |}.

(** The statements the module runs when it loads, from [item0] to
    [customChangeSet], started with the counter at [itemIdx]. *)
Definition customChangeSetFrom (itemIdx : N)
  : (ArrayError + list (list Item)) * N :=
  let (item0, idx1) := getNewItem itemIdx in
  let (item1, idx2) := getNewItem idx1 in
  let (item2, idx3) := getNewItem idx2 in
  let (item3, idx4) := getNewItem idx3 in
  match getItems 500 idx4 with
  | (inl e, idx5) => (inl e, idx5)
  | (inr items5, idx5) =>
      (inr
         [ [];
           [item0; item1; item2; item3] ++ items5;
           [item0; item3; withValue item2 "2232"] ++ items5;
           [item0; item3; withValue item2 "2232"];
           [];
           [item0; item3; withValue item2 "2232"] ++ items5;
           [item0; item1; item2; item3] ++ items5;
           [item0; item3; withValue item2 "2232"];
           [];
           [item0] ++ items5 ++ [item1; item2; item3];
           [item0; item3; withValue item2 "2232"] ++ items5;
           [item0; item3; withValue item2 "2232"] ],
       idx5)
  end.

(** [let itemIdx = 0] and the module's load. *)
Definition customChangeSet : (ArrayError + list (list Item)) * N :=
  customChangeSetFrom 0.

(** [trackById = (idx, item) => item.id]. *)
Definition trackById (idx : nat) (item : Item) : string := id item.

(** [rendered$]: [renderCallback.pipe(startWith(null),
    map(() => ++this.numRendered))], for one subscriber and the values
    the subject emits after it subscribed. *)
Fixpoint mapIncrement {A} (emitted : list A) (numRendered : N)
  : list N * N :=
  match emitted with
  | [] => ([], numRendered)
  | _ :: rest =>
      let n' := increment numRendered in
      let (out, n'') := mapIncrement rest n' in
      (n' :: out, n'')
  end.

Definition rendered {A} (renderCallback : list A) (numRendered : N)
  : list N * N :=
  mapIncrement (None :: (Some <$> renderCallback)) numRendered.

(** The item [getNewItem] makes when the counter is [n]. *)
Definition itemAt (n : N) : Item :=
  {| id := pretty n;
     value := pretty n +:+ pretty n +:+ pretty n +:+ pretty n |}.

(** [n] consecutive numbers from [start]. *)
Definition countFrom (start : N) (n : nat) : list N :=
  (fun i : nat => (start + N.of_nat i)%N) <$> seq 0 n.

End RxIterableDiffer.

(* ================================================================== *)
(** * Properties *)

(** ** Running host code *)

Lemma bind_run {A B} (m : M A) (k : A -> M B) (w : World) :
  (x ← m; k x) w =
  match m w with
  | (Returned a, w') => k a w'
  | (Thrown e, w') => (Thrown e, w')
  end.
Proof. reflexivity. Qed.

Lemma callsOf_logged (l k : list HostCall) : drop (length l) (l ++ k) = k.
Proof. apply drop_app_length. Qed.

Lemma isViewEngineIvy_run (w : World) :
  isViewEngineIvy w = (Returned (ivy w), logCall Call_isViewEngineIvy w).
Proof. reflexivity. Qed.

Lemma generateFrames_run (w : World) :
  generateFrames w =
  (Returned {| tick_id := nextId w; tick_mode := FrameMode |},
   logCall (Call_generateFrames (nextId w)) (bumpId w)).
Proof. reflexivity. Qed.

Lemma cdRef_field_run (f : ChangeDetectorRef -> Ctx) (ref : N) (w : World)
    (o : ChangeDetectorRef) :
  heap w !! ref = Some o ->
  cdRef_field f ref w = (Returned (f o), w).
Proof.
  intros Ho. unfold cdRef_field. rewrite bind_run. simpl.
  rewrite Ho. reflexivity.
Qed.

Lemma cdRef_field_dangling (f : ChangeDetectorRef -> Ctx) (ref : N)
    (w : World) :
  heap w !! ref = None ->
  ref ∉ primitives w ->
  cdRef_field f ref w = (Thrown (TypeError "cdRef"), w).
Proof.
  intros Ho Hp. unfold cdRef_field. rewrite bind_run. simpl.
  rewrite Ho, (bool_decide_eq_false_2 _ Hp). reflexivity.
Qed.

Lemma cdRef_field_primitive (f : ChangeDetectorRef -> Ctx) (ref : N)
    (w : World) :
  heap w !! ref = None ->
  ref ∈ primitives w ->
  cdRef_field f ref w = (Returned None, w).
Proof.
  intros Ho Hp. unfold cdRef_field. rewrite bind_run. simpl.
  rewrite Ho, (bool_decide_eq_true_2 _ Hp). reflexivity.
Qed.

(** ** The identity strategies *)

(** C3: the behaviours of [native], [noop] and [global] are the identity
    on the notification stream: the three are the same function, and a
    subscriber of the transformed stream sees, in any host, exactly the
    timeline of the source. *)
Theorem identity_strategies_pass_through (T : Type)
    (cfg : StrategyFactoryConfig) (arg : option JsValue) (w0 : World) :
  exists g : CdStrategy T,
    outcome (createGlobalStrategy T cfg) w0 = Returned g /\
    behaviour (createNativeStrategy T cfg) = (fun _ o => o) /\
    behaviour (createNoopStrategy T arg) = (fun _ o => o) /\
    behaviour g = (fun _ o => o) /\
    forall (o : Observable T) (w : World),
      behaviour (createNativeStrategy T cfg) tt o w = o w /\
      behaviour (createNoopStrategy T arg) tt o w = o w /\
      behaviour g tt o w = o w.
Proof.
  eexists. split.
  - unfold outcome, createGlobalStrategy. rewrite bind_run.
    rewrite isViewEngineIvy_run. reflexivity.
  - simpl. repeat split; reflexivity.
Qed.

(** C10: [createNoopStrategy] does not look at its argument; its render
    returns without a host call in any host, also one with no live
    [ChangeDetectorRef], and its behaviour is the identity. *)
Theorem noop_strategy_ignores_config (T : Type) (a b : option JsValue) :
  createNoopStrategy T a = createNoopStrategy T b /\
  name (createNoopStrategy T a) = "noop" /\
  (forall w : World,
     render (createNoopStrategy T a) tt w = (Returned tt, w)) /\
  (forall o : Observable T, behaviour (createNoopStrategy T a) tt o = o).
Proof. repeat split. Qed.

(** ** The duration selector *)

(** The detection helper is consulted by [getResolvedPromise] only while
    nothing is cached; with a cached promise the zone symbol constructor
    is used whatever the check would answer. *)
Lemma getResolvedPromise_cached (w : World) (p : JsPromise) :
  resolvedPromise w = Some p ->
  zoneSymbolPromise w = true ->
  getResolvedPromise w =
  (Returned {| promise_id := nextId w; fromZoneSymbol := true |},
   setResolvedPromise {| promise_id := nextId w; fromZoneSymbol := true |}
     (logCall (Call_Promise_resolve true) (bumpId w))).
Proof.
  intros Hp Hz. unfold getResolvedPromise. rewrite bind_run. simpl.
  rewrite Hp. rewrite bind_run. simpl. rewrite bind_run.
  unfold Promise_resolve. rewrite bind_run. simpl. rewrite Hz. simpl.
  reflexivity.
Qed.

(** On a host without zone.js the first call caches a promise of the
    ambient constructor; the second call, finding it, takes the zone
    symbol branch and fails on the missing constructor. *)
Example getResolvedPromise_twice_without_zone :
  outcome getResolvedPromise legacyWorld
    = Returned {| promise_id := 0%N; fromZoneSymbol := false |} /\
  outcome (getResolvedPromise ≫= fun _ => getResolvedPromise) legacyWorld
    = Thrown (TypeError "__zone_symbol__Promise").
Proof. split; vm_compute; reflexivity. Qed.

(** C2 (as amended): a request for the duration selector never consults
    the detection check; in every host the producer it returns yields a
    frame-based tick source, and the request caches nothing. *)
Theorem duration_selector_always_frames (w : World) :
  let request := getZoneUnPatchedDurationSelector tt tt in
  outcome request w =
    Returned {| tick_id := nextId w; tick_mode := FrameMode |} /\
  callsOf request w = [Call_generateFrames (nextId w)] /\
  resolvedPromise (after request w) = resolvedPromise w.
Proof.
  simpl. unfold outcome, after, callsOf, getZoneUnPatchedDurationSelector.
  rewrite generateFrames_run. simpl.
  repeat split. apply callsOf_logged.
Qed.

(** C2 (as stated) fails on a host where the Promise constructor is
    patched: the check is not called and the source is frame-based. *)
Lemma duration_selector_ignores_zone_patch :
  zonePatched ivyZoneWorld "Promise" = true /\
  ~ selectsModeByDetection ivyZoneWorld.
Proof.
  split; [reflexivity |].
  intros [_ Hmode]. vm_compute in Hmode. discriminate Hmode.
Qed.

(** ** Building the strategies *)

Lemma createGlobalStrategy_run (T : Type) (cfg : StrategyFactoryConfig)
    (w : World) :
  createGlobalStrategy T cfg w =
  (Returned (globalStrategyOf T (ivy w) cfg),
   logCall Call_isViewEngineIvy w).
Proof.
  unfold createGlobalStrategy. rewrite bind_run, isViewEngineIvy_run.
  reflexivity.
Qed.

Lemma createLocalStrategy_run (T : Type) (cfg : StrategyFactoryConfig)
    (w : World) (o : ChangeDetectorRef) :
  heap w !! cdRef cfg = Some o ->
  createLocalStrategy T cfg w =
  (Returned (localStrategyOf T (ivy w) (contextKey w o) cfg),
   logCall Call_isViewEngineIvy w).
Proof.
  intros Ho. unfold createLocalStrategy, contextKey.
  rewrite bind_run, isViewEngineIvy_run, bind_run.
  destruct (ivy w); erewrite cdRef_field_run by exact Ho; reflexivity.
Qed.

(** With a [cdRef] that is [undefined] or [null] the factory of [local]
    throws while it reads the context key. *)
Lemma createLocalStrategy_dangling (T : Type) (cfg : StrategyFactoryConfig)
    (w : World) :
  heap w !! cdRef cfg = None ->
  cdRef cfg ∉ primitives w ->
  outcome (createLocalStrategy T cfg) w = Thrown (TypeError "cdRef").
Proof.
  intros Ho Hp. unfold outcome, createLocalStrategy.
  rewrite bind_run, isViewEngineIvy_run, bind_run.
  destruct (ivy w); rewrite cdRef_field_dangling by assumption;
    reflexivity.
Qed.

(** With a primitive [cdRef] the factory of [local] returns: the field
    it reads is [undefined], and that is the context key. *)
Lemma createLocalStrategy_primitive (T : Type)
    (cfg : StrategyFactoryConfig) (w : World) :
  heap w !! cdRef cfg = None ->
  cdRef cfg ∈ primitives w ->
  createLocalStrategy T cfg w =
  (Returned (localStrategyOf T (ivy w) None cfg),
   logCall Call_isViewEngineIvy w).
Proof.
  intros Ho Hp. unfold createLocalStrategy.
  rewrite bind_run, isViewEngineIvy_run, bind_run.
  destruct (ivy w); rewrite cdRef_field_primitive by assumption;
    reflexivity.
Qed.

Lemma getStrategies_run (T : Type) (cfg : StrategyFactoryConfig)
    (w : World) (o : ChangeDetectorRef) :
  heap w !! cdRef cfg = Some o ->
  getStrategies T cfg w =
  (Returned
     (<["native" := createNativeStrategy T cfg]>
      (<["noop" := createNoopStrategy T None]>
       (<["global" := globalStrategyOf T (ivy w) cfg]>
        (<["local" := localStrategyOf T (ivy w) (contextKey w o) cfg]>
         ∅)))),
   logCall Call_isViewEngineIvy (logCall Call_isViewEngineIvy w)).
Proof.
  intros Ho. unfold getStrategies.
  rewrite bind_run, createGlobalStrategy_run, bind_run.
  rewrite (createLocalStrategy_run T cfg _ o) by exact Ho.
  reflexivity.
Qed.

(** A config whose [cdRef] is [undefined] is not valid: the registry
    cannot be built from it. *)
Example getStrategies_dangling :
  outcome (getStrategies nat danglingConfig) ivyZoneWorld
  = Thrown (TypeError "cdRef").
Proof. vm_compute. reflexivity. Qed.

Lemma strategy_name_cases (k : string) :
  k ∉ strategyNames ->
  k ≠ "native" /\ k ≠ "noop" /\ k ≠ "global" /\ k ≠ "local".
Proof.
  unfold strategyNames. intros Hk.
  repeat split; intros ->; apply Hk; set_solver.
Qed.

(** ** The registry *)

Lemma objectPrototypeNames_not_strategies (k : string) :
  k ∈ objectPrototypeNames -> k ∉ strategyNames.
Proof.
  unfold objectPrototypeNames, strategyNames. intros Hk Hs.
  repeat (apply elem_of_cons in Hk as [-> | Hk];
          [repeat (apply elem_of_cons in Hs as [Hs | Hs];
                   [discriminate Hs |]);
           apply elem_of_nil in Hs; exact Hs |]).
  apply elem_of_nil in Hk. exact Hk.
Qed.

(** C4 (as amended): for a config whose [cdRef] is a live object,
    [getStrategies] returns an object whose own properties are exactly
    [native], [noop], [global] and [local], each holding a strategy.
    Looking up any other name never throws; it gives [undefined] unless
    the name is one the object inherits from [Object.prototype], and
    then it gives the inherited value. *)
Theorem getStrategies_own_names_exactly_four (T : Type)
    (cfg : StrategyFactoryConfig) (w : World) :
  is_Some (heap w !! cdRef cfg) ->
  exists m : gmap string (CdStrategy T),
    outcome (getStrategies T cfg) w = Returned m /\
    dom m = list_to_set strategyNames /\
    (forall k : string, k ∈ strategyNames ->
       exists s : CdStrategy T,
         m !! k = Some s /\ getProperty m k = OwnStrategy s) /\
    (forall k : string, k ∉ strategyNames ->
       m !! k = None /\
       (k ∉ objectPrototypeNames -> getProperty m k = NotFound) /\
       (k ∈ objectPrototypeNames ->
          getProperty m k = InheritedFromObject k)).
Proof.
  intros [o Ho]. eexists. split.
  - unfold outcome. rewrite (getStrategies_run T cfg w o Ho). reflexivity.
  - split; [| split].
    + rewrite !dom_insert_L, dom_empty_L. unfold strategyNames. simpl.
      set_solver.
    + intros k Hk. unfold strategyNames in Hk.
      repeat (apply elem_of_cons in Hk as [-> | Hk];
              [eexists; split; reflexivity |]).
      apply elem_of_nil in Hk. destruct Hk.
    + intros k Hk. apply strategy_name_cases in Hk.
      destruct Hk as (H1 & H2 & H3 & H4).
      split; [rewrite !lookup_insert_ne by congruence;
              apply lookup_empty |].
      unfold getProperty.
      rewrite !lookup_insert_ne by congruence. rewrite lookup_empty.
      split.
      * intros Hp. rewrite (bool_decide_eq_false_2 _ Hp). reflexivity.
      * intros Hp. rewrite (bool_decide_eq_true_2 _ Hp). reflexivity.
Qed.

Lemma getStrategies_own_names_exactly_four_witness :
  exists m : gmap string (CdStrategy nat),
    outcome (getStrategies nat sampleConfig) ivyZoneWorld = Returned m /\
    dom m = list_to_set strategyNames /\
    (forall k : string, k ∈ strategyNames ->
       exists s : CdStrategy nat,
         m !! k = Some s /\ getProperty m k = OwnStrategy s) /\
    (forall k : string, k ∉ strategyNames ->
       m !! k = None /\
       (k ∉ objectPrototypeNames -> getProperty m k = NotFound) /\
       (k ∈ objectPrototypeNames ->
          getProperty m k = InheritedFromObject k)).
Proof.
  apply (getStrategies_own_names_exactly_four nat sampleConfig
           ivyZoneWorld).
  exists {| _lView := Some 100%N; context := Some 200%N |}.
  vm_compute. reflexivity.
Defined.

(** C4 (as stated) fails: [toString] is none of the four names, and
    looking it up in the registry of a valid config gives the function
    inherited from [Object.prototype], not the absent result. *)
Lemma registry_lookup_of_inherited_name :
  exists m : gmap string (CdStrategy nat),
    outcome (getStrategies nat sampleConfig) ivyZoneWorld = Returned m /\
    ("toString" ∉ strategyNames) /\
    getProperty m "toString" = InheritedFromObject "toString" /\
    ~ unknownNamesNotFound m.
Proof.
  assert (Hnot : "toString" ∉ strategyNames).
  { unfold strategyNames. intros Hs.
    repeat (apply elem_of_cons in Hs as [Hs | Hs]; [discriminate Hs |]).
    apply elem_of_nil in Hs. exact Hs. }
  eexists. split; [| split; [| split]].
  - unfold outcome.
    rewrite (getStrategies_run nat sampleConfig ivyZoneWorld
               {| _lView := Some 100%N; context := Some 200%N |});
      [reflexivity | vm_compute; reflexivity].
  - exact Hnot.
  - vm_compute. reflexivity.
  - intros Hall. specialize (Hall "toString" Hnot).
    vm_compute in Hall. discriminate Hall.
Qed.

(** C7: the record [getStrategies] returns for a valid config has a
    [native] entry, and the default strategy name is ['local'], which is
    not ['native']. *)
Theorem registry_has_native_default_is_local (T : Type)
    (cfg : StrategyFactoryConfig) (w : World) :
  is_Some (heap w !! cdRef cfg) ->
  (exists m : gmap string (CdStrategy T),
     outcome (getStrategies T cfg) w = Returned m /\
     m !! "native" = Some (createNativeStrategy T cfg)) /\
  DEFAULT_STRATEGY_NAME = "local" /\
  DEFAULT_STRATEGY_NAME ≠ "native".
Proof.
  intros [o Ho]. split; [| split].
  - eexists. split.
    + unfold outcome. rewrite (getStrategies_run T cfg w o Ho).
      reflexivity.
    + apply lookup_insert_eq.
  - reflexivity.
  - discriminate.
Qed.

Lemma registry_has_native_default_is_local_witness :
  (exists m : gmap string (CdStrategy nat),
     outcome (getStrategies nat sampleConfig) legacyWorld = Returned m /\
     m !! "native" = Some (createNativeStrategy nat sampleConfig)) /\
  DEFAULT_STRATEGY_NAME = "local" /\
  DEFAULT_STRATEGY_NAME ≠ "native".
Proof.
  apply (registry_has_native_default_is_local nat sampleConfig legacyWorld).
  exists {| _lView := None; context := Some 200%N |}.
  vm_compute. reflexivity.
Defined.

(** C9: the record [getStrategies] returns for a valid config has an
    entry under each of [native], [noop], [global] and [local], and the
    strategy stored under a key carries that key as its name: the entry
    under ['native'] is named ['native'], and so on for the other three;
    there is no further entry. *)
Theorem registry_names_match_keys (T : Type)
    (cfg : StrategyFactoryConfig) (w : World) :
  is_Some (heap w !! cdRef cfg) ->
  exists (m : gmap string (CdStrategy T))
         (native noop global local : CdStrategy T),
    outcome (getStrategies T cfg) w = Returned m /\
    m !! "native" = Some native /\ name native = "native" /\
    m !! "noop" = Some noop /\ name noop = "noop" /\
    m !! "global" = Some global /\ name global = "global" /\
    m !! "local" = Some local /\ name local = "local" /\
    forall (k : string) (s : CdStrategy T),
      m !! k = Some s -> name s = k.
Proof.
  intros [o Ho]. eexists _, _, _, _, _. split.
  - unfold outcome. rewrite (getStrategies_run T cfg w o Ho). reflexivity.
  - do 8 (split; [reflexivity |]).
    intros k s Hs.
    repeat (apply lookup_insert_Some in Hs;
            destruct Hs as [[<- <-] | [_ Hs]]; [reflexivity |]).
    rewrite lookup_empty in Hs. discriminate Hs.
Qed.

Lemma registry_names_match_keys_witness :
  exists (m : gmap string (CdStrategy nat))
         (native noop global local : CdStrategy nat),
    outcome (getStrategies nat sampleConfig) ivyZoneWorld = Returned m /\
    m !! "native" = Some native /\ name native = "native" /\
    m !! "noop" = Some noop /\ name noop = "noop" /\
    m !! "global" = Some global /\ name global = "global" /\
    m !! "local" = Some local /\ name local = "local" /\
    forall (k : string) (s : CdStrategy nat),
      m !! k = Some s -> name s = k.
Proof.
  apply (registry_names_match_keys nat sampleConfig ivyZoneWorld).
  exists {| _lView := Some 100%N; context := Some 200%N |}.
  vm_compute. reflexivity.
Defined.

(** ** Rendering *)

Lemma callsOf_markDirty (comp : N) (w : World) :
  callsOf (markDirty comp) w = [Call_markDirty comp].
Proof. apply callsOf_logged. Qed.

Lemma callsOf_detectChanges (comp : N) (w : World) :
  callsOf (detectChanges comp) w = [Call_detectChanges comp].
Proof. apply callsOf_logged. Qed.

Lemma callsOf_cdRef_markForCheck (ref : N) (w : World) :
  callsOf (cdRef_markForCheck ref) w =
  match heap w !! ref with
  | Some _ => [Call_markForCheck ref]
  | None => []
  end.
Proof.
  unfold callsOf, after, cdRef_markForCheck. rewrite bind_run. simpl.
  destruct (heap w !! ref); simpl.
  - apply callsOf_logged.
  - apply drop_all.
Qed.

Lemma callsOf_cdRef_detectChanges (ref : N) (w : World) :
  callsOf (cdRef_detectChanges ref) w =
  match heap w !! ref with
  | Some _ => [Call_cdRef_detectChanges ref]
  | None => []
  end.
Proof.
  unfold callsOf, after, cdRef_detectChanges. rewrite bind_run. simpl.
  destruct (heap w !! ref); simpl.
  - apply callsOf_logged.
  - apply drop_all.
Qed.

Lemma not_flag_read_in_singleton (c : HostCall) :
  c ≠ Call_isViewEngineIvy -> Call_isViewEngineIvy ∉ [c].
Proof.
  intros Hc Hin. apply list_elem_of_singleton in Hin. congruence.
Qed.

(** C5: [global] and [local] read the engine flag once, while they are
    built in host [w0]; in any later host [w], whatever its flag, their
    render calls the function picked by the flag of [w0] and does not
    read the flag again. *)
Theorem render_route_fixed_at_construction (T : Type)
    (cfg : StrategyFactoryConfig) (w0 : World) :
  is_Some (heap w0 !! cdRef cfg) ->
  exists g l : CdStrategy T,
    outcome (createGlobalStrategy T cfg) w0 = Returned g /\
    outcome (createLocalStrategy T cfg) w0 = Returned l /\
    callsOf (createGlobalStrategy T cfg) w0 = [Call_isViewEngineIvy] /\
    callsOf (createLocalStrategy T cfg) w0 = [Call_isViewEngineIvy] /\
    forall w : World,
      render g tt w =
        (if ivy w0 then markDirty (component cfg)
         else cdRef_markForCheck (cdRef cfg)) w /\
      render l tt w =
        (if ivy w0 then detectChanges (component cfg)
         else cdRef_detectChanges (cdRef cfg)) w /\
      (Call_isViewEngineIvy ∉ callsOf (render g tt) w) /\
      (Call_isViewEngineIvy ∉ callsOf (render l tt) w).
Proof.
  intros [o Ho].
  exists (globalStrategyOf T (ivy w0) cfg),
         (localStrategyOf T (ivy w0) (contextKey w0 o) cfg).
  split; [unfold outcome; rewrite createGlobalStrategy_run; reflexivity |].
  split; [unfold outcome; rewrite (createLocalStrategy_run T cfg w0 o Ho);
          reflexivity |].
  split; [unfold callsOf, after; rewrite createGlobalStrategy_run;
          apply callsOf_logged |].
  split; [unfold callsOf, after;
          rewrite (createLocalStrategy_run T cfg w0 o Ho);
          apply callsOf_logged |].
  intros w. cbn [render globalStrategyOf localStrategyOf].
  destruct (ivy w0); cbn [negb]; repeat split.
  - rewrite callsOf_markDirty. apply not_flag_read_in_singleton; discriminate.
  - rewrite callsOf_detectChanges.
    apply not_flag_read_in_singleton; discriminate.
  - rewrite callsOf_cdRef_markForCheck.
    destruct (heap w !! cdRef cfg);
      [apply not_flag_read_in_singleton; discriminate
      | apply not_elem_of_nil].
  - rewrite callsOf_cdRef_detectChanges.
    destruct (heap w !! cdRef cfg);
      [apply not_flag_read_in_singleton; discriminate
      | apply not_elem_of_nil].
Qed.

Lemma render_route_fixed_at_construction_witness :
  exists g l : CdStrategy nat,
    outcome (createGlobalStrategy nat sampleConfig) legacyWorld
      = Returned g /\
    outcome (createLocalStrategy nat sampleConfig) legacyWorld
      = Returned l /\
    callsOf (createGlobalStrategy nat sampleConfig) legacyWorld
      = [Call_isViewEngineIvy] /\
    callsOf (createLocalStrategy nat sampleConfig) legacyWorld
      = [Call_isViewEngineIvy] /\
    forall w : World,
      render g tt w =
        (if ivy legacyWorld then markDirty (component sampleConfig)
         else cdRef_markForCheck (cdRef sampleConfig)) w /\
      render l tt w =
        (if ivy legacyWorld then detectChanges (component sampleConfig)
         else cdRef_detectChanges (cdRef sampleConfig)) w /\
      (Call_isViewEngineIvy ∉ callsOf (render g tt) w) /\
      (Call_isViewEngineIvy ∉ callsOf (render l tt) w).
Proof.
  apply (render_route_fixed_at_construction nat sampleConfig legacyWorld).
  exists {| _lView := None; context := Some 200%N |}.
  vm_compute. reflexivity.
Defined.

(** ** The local strategy *)

(** C6: the context key of the coalescing of [local] is read from the
    [ChangeDetectorRef] while the strategy is built in host [w0]: its
    [_lView] field on the current engine, its [context] field otherwise.
    In any later host the behaviour coalesces under that key. *)
Theorem local_context_key_from_cdRef (T : Type)
    (cfg : StrategyFactoryConfig) (w0 : World) (o : ChangeDetectorRef) :
  heap w0 !! cdRef cfg = Some o ->
  exists l : CdStrategy T,
    outcome (createLocalStrategy T cfg) w0 = Returned l /\
    forall (source : Observable T) (w : World),
      behaviour l tt source w =
      coalesce T (getZoneUnPatchedDurationSelector tt)
        {| config_context := if ivy w0 then _lView o else context o |}
        source w.
Proof.
  intros Ho. eexists. split.
  - unfold outcome. rewrite (createLocalStrategy_run T cfg w0 o Ho).
    reflexivity.
  - intros source w. reflexivity.
Qed.

Lemma local_context_key_from_cdRef_witness :
  exists l : CdStrategy nat,
    outcome (createLocalStrategy nat sampleConfig) ivyZoneWorld
      = Returned l /\
    forall (source : Observable nat) (w : World),
      behaviour l tt source w =
      coalesce nat (getZoneUnPatchedDurationSelector tt)
        {| config_context := Some 100%N |} source w.
Proof.
  apply (local_context_key_from_cdRef nat sampleConfig ivyZoneWorld
           {| _lView := Some 100%N; context := Some 200%N |}).
  vm_compute. reflexivity.
Defined.

(** ** Coalescing *)

Lemma last_value_wins {A} (l : list A) (a d : A) :
  List.last (a :: l) d = List.last l a.
Proof.
  revert a d. induction l as [| b l IH]; intros a d.
  - reflexivity.
  - change (List.last (a :: b :: l) d) with (List.last (b :: l) d).
    rewrite (IH b d), (IH b a). reflexivity.
Qed.

(** With a window of context [k] open, the notifications that arrive
    before its tick only replace the stored value; ticks of other
    contexts pass; the tick of [k] forwards the stored value and leaves
    no entry behind. *)
Lemma coalesceRun_open_window (T : Type) (ds : DurationSelector) (k : Ctx)
    (win rest : Timeline T) (e : PendingEntry T) (w : World) :
  forallb (inWindow k) win = true ->
  coalesceRun T ds k {[k := e]} (win ++ TickFire k :: rest) w =
  (tl ← coalesceRun T ds k ∅ rest;
   ret (List.filter isTick win ++
        TickFire k :: Next (List.last (notifications win) (latest e)) :: tl))
    w.
Proof.
  revert e w. induction win as [| s win IH]; intros e w Hwin.
  - cbn [app coalesceRun].
    rewrite lookup_singleton_eq, delete_singleton_eq. reflexivity.
  - cbn [forallb] in Hwin. apply andb_prop in Hwin as [Hs Hwin].
    destruct s as [v | c | | err]; cbn [inWindow] in Hs;
      try discriminate Hs.
    + change ((Next v :: win) ++ TickFire k :: rest)
        with (Next v :: (win ++ TickFire k :: rest)).
      cbn [coalesceRun].
      rewrite lookup_singleton_eq, insert_singleton_eq.
      rewrite (IH _ w Hwin).
      change (notifications (Next v :: win)) with (v :: notifications win).
      rewrite last_value_wins. reflexivity.
    + apply bool_decide_eq_true in Hs.
      change ((TickFire c :: win) ++ TickFire k :: rest)
        with (TickFire c :: (win ++ TickFire k :: rest)).
      cbn [coalesceRun].
      rewrite lookup_singleton_ne by congruence.
      rewrite bind_run, (IH e w Hwin), !bind_run.
      destruct (coalesceRun T ds k ∅ rest w) as [[tl | err] w'];
        reflexivity.
Qed.

(** The scenario of the spec: [1, 2, 3] pushed before the first tick and
    [4] before the second give [3] and then [4]. *)
Example coalesce_two_windows :
  outcome
    (coalesce nat (getZoneUnPatchedDurationSelector tt)
       {| config_context := Some 100%N |}
       (ret [Next 1; Next 2; Next 3; TickFire (Some 100%N);
             Next 4; TickFire (Some 100%N)]))
    ivyZoneWorld
  = Returned [TickFire (Some 100%N); Next 3; TickFire (Some 100%N); Next 4].
Proof. vm_compute. reflexivity. Qed.

(** Completion flushes the pending value; failure discards it. *)
Example coalesce_complete_and_error :
  outcome
    (coalesce nat (getZoneUnPatchedDurationSelector tt)
       {| config_context := None |} (ret [Next 1; Next 2; Complete]))
    legacyWorld
  = Returned [Next 2; Complete] /\
  outcome
    (coalesce nat (getZoneUnPatchedDurationSelector tt)
       {| config_context := None |}
       (ret [Next 1; Next 2; Error (TypeError "upstream")]))
    legacyWorld
  = Returned [Error (TypeError "upstream")].
Proof. split; vm_compute; reflexivity. Qed.

(** C1: the behaviour of [local], built in host [w0] with context key
    [k]: a first notification [v] opens a window; whatever notifications
    (and ticks of other contexts) follow before the tick of [k], the
    subscriber gets, at that tick, one notification, the last one
    received, and no error; the stream then goes on as from a closed
    window.  One tick subscription is made for the whole window. *)
Theorem local_window_forwards_last (T : Type)
    (cfg : StrategyFactoryConfig) (w0 : World) (o : ChangeDetectorRef)
    (v : T) (win rest : Timeline T) (vs : list T) (w : World) :
  heap w0 !! cdRef cfg = Some o ->
  forallb (inWindow (contextKey w0 o)) win = true ->
  exists l : CdStrategy T,
    outcome (createLocalStrategy T cfg) w0 = Returned l /\
    behaviour l tt
      (ret (Next v :: win ++ TickFire (contextKey w0 o) :: rest)) w =
    (tl ← behaviour l tt (ret rest);
     ret (List.filter isTick win ++
          TickFire (contextKey w0 o) ::
          Next (List.last (notifications win) v) :: tl))
      (after generateFrames w) /\
    outcome (behaviour l tt
               (ret ((Next <$> v :: vs) ++ [TickFire (contextKey w0 o)]))) w
      = Returned [TickFire (contextKey w0 o); Next (List.last vs v)] /\
    callsOf (behaviour l tt
               (ret ((Next <$> v :: vs) ++ [TickFire (contextKey w0 o)]))) w
      = [Call_generateFrames (nextId w)].
Proof.
  intros Ho Hwin.
  exists (localStrategyOf T (ivy w0) (contextKey w0 o) cfg).
  split.
  { unfold outcome. rewrite (createLocalStrategy_run T cfg w0 o Ho).
    reflexivity. }
  assert (Hopen : forall (win' rest' : Timeline T) (w1 : World),
    forallb (inWindow (contextKey w0 o)) win' = true ->
    behaviour (localStrategyOf T (ivy w0) (contextKey w0 o) cfg) tt
      (ret (Next v :: win' ++ TickFire (contextKey w0 o) :: rest')) w1 =
    (tl ← behaviour (localStrategyOf T (ivy w0) (contextKey w0 o) cfg) tt
            (ret rest');
     ret (List.filter isTick win' ++
          TickFire (contextKey w0 o) ::
          Next (List.last (notifications win') v) :: tl))
      (after generateFrames w1)).
  { intros win' rest' w1 Hwin'.
    cbn [behaviour localStrategyOf]. unfold coalesce.
    cbn [config_context]. rewrite bind_run. cbn [ret].
    cbn [coalesceRun]. rewrite lookup_empty, bind_run.
    unfold getZoneUnPatchedDurationSelector.
    rewrite generateFrames_run, insert_empty.
    rewrite (coalesceRun_open_window T _ _ win' rest' _ _ Hwin').
    reflexivity. }
  split; [exact (Hopen win rest w Hwin) |].
  assert (Hvs : forallb (inWindow (contextKey w0 o)) (Next <$> vs) = true).
  { clear. induction vs as [| x xs IH]; [reflexivity | exact IH]. }
  assert (Hticks : List.filter isTick (Next <$> vs) = @nil (Signal T)).
  { clear. induction vs as [| x xs IH]; [reflexivity | exact IH]. }
  assert (Hnotes : notifications (Next <$> vs) = vs).
  { clear. induction vs as [| x xs IH]; [reflexivity |].
    change (notifications (Next <$> x :: xs))
      with (x :: notifications (Next <$> xs)).
    rewrite IH. reflexivity. }
  change ((Next <$> v :: vs) ++ [TickFire (contextKey w0 o)])
    with (Next v :: (Next <$> vs) ++ TickFire (contextKey w0 o) :: []).
  unfold outcome, callsOf, after.
  rewrite (Hopen (Next <$> vs) [] w Hvs), Hticks, Hnotes.
  unfold after. rewrite generateFrames_run. split; [reflexivity |].
  cbn. apply callsOf_logged.
Qed.

Lemma local_window_forwards_last_witness :
  exists l : CdStrategy nat,
    outcome (createLocalStrategy nat sampleConfig) ivyZoneWorld
      = Returned l /\
    behaviour l tt
      (ret (Next 1 :: [Next 2; TickFire (Some 200%N); Next 3] ++
            TickFire (Some 100%N) :: [Next 4])) legacyWorld =
    (tl ← behaviour l tt (ret [Next 4]);
     ret (List.filter isTick [Next 2; TickFire (Some 200%N); Next 3] ++
          TickFire (Some 100%N) :: Next 3 :: tl))
      (after generateFrames legacyWorld) /\
    outcome (behaviour l tt
               (ret ((Next <$> [1; 2; 3]) ++ [TickFire (Some 100%N)])))
      legacyWorld
      = Returned [TickFire (Some 100%N); Next 3] /\
    callsOf (behaviour l tt
               (ret ((Next <$> [1; 2; 3]) ++ [TickFire (Some 100%N)])))
      legacyWorld
      = [Call_generateFrames 0%N].
Proof.
  apply (local_window_forwards_last nat sampleConfig ivyZoneWorld
           {| _lView := Some 100%N; context := Some 200%N |}
           1 [Next 2; TickFire (Some 200%N); Next 3] [Next 4] [2; 3]
           legacyWorld).
  - vm_compute. reflexivity.
  - vm_compute. reflexivity.
Defined.

(** ** Independence of tick sources *)

(** Invoking [n] producers, each got from a call of the factory: every
    invocation returns, with a frame source whose identity is new. *)
Lemma invokeEach_fresh (n : nat) (w : World) :
  exists (ts : list TickSource) (w' : World),
    invokeEach (replicate n (getZoneUnPatchedDurationSelector tt)) w
      = (Returned ts, w') /\
    length ts = n /\
    nextId w' = (nextId w + N.of_nat n)%N /\
    Forall (fun t => tick_mode t = FrameMode /\
                     (nextId w <= tick_id t < nextId w')%N) ts /\
    NoDup (tick_id <$> ts).
Proof.
  revert w. induction n as [| n IH]; intros w.
  - exists [], w. cbn. repeat split.
    + lia.
    + constructor.
    + constructor.
  - destruct (IH (logCall (Call_generateFrames (nextId w)) (bumpId w)))
      as (ts & w' & Hrun & Hlen & Hnext & Hall & Hnd).
    cbn [nextId logCall bumpId] in Hnext, Hall.
    exists ({| tick_id := nextId w; tick_mode := FrameMode |} :: ts), w'.
    split; [| split; [| split; [| split]]].
    + cbn [replicate invokeEach]. rewrite bind_run.
      unfold getZoneUnPatchedDurationSelector at 1.
      rewrite generateFrames_run, bind_run, Hrun. reflexivity.
    + cbn. rewrite Hlen. reflexivity.
    + rewrite Hnext. lia.
    + constructor.
      * cbn. split; [reflexivity | lia].
      * eapply Forall_impl; [exact Hall |].
        intros t [Hm Hr]. split; [exact Hm | lia].
    + cbn [fmap list_fmap tick_id]. apply NoDup_cons. split; [| exact Hnd].
      intros Hin. apply list_elem_of_fmap in Hin as (t & Heq & Ht).
      rewrite Forall_forall in Hall. destruct (Hall t Ht) as [_ Hr].
      lia.
Qed.

(** C8: the factory takes no argument and does nothing in the host; the
    producers it returns, invoked one after the other, each build a tick
    source of their own: all return, all sources are frame sources, no
    two have the same identity, and none has an identity that was in use
    before. *)
Theorem duration_selector_sources_independent (n : nat) (w : World) :
  exists ts : list TickSource,
    outcome (invokeEach (replicate n (getZoneUnPatchedDurationSelector tt)))
      w = Returned ts /\
    length ts = n /\
    NoDup (tick_id <$> ts) /\
    Forall (fun t => tick_mode t = FrameMode /\ (nextId w <= tick_id t)%N)
      ts.
Proof.
  destruct (invokeEach_fresh n w) as (ts & w' & Hrun & Hlen & _ & Hall & Hnd).
  exists ts. unfold outcome. rewrite Hrun.
  repeat split; [exact Hlen | exact Hnd |].
  eapply Forall_impl; [exact Hall |].
  intros t [Hm Hr]. split; [exact Hm | lia].
Qed.

(* ================================================================== *)
(** * Further properties of the strategies *)

(** ** What building the registry does in the host *)

(** X1: building the registry of a valid config reads the engine flag
    twice and does nothing else in the host: no render call, no tick
    source, no promise, no change of the objects. *)
Theorem registry_build_footprint (T : Type) (cfg : StrategyFactoryConfig)
    (w : World) :
  is_Some (heap w !! cdRef cfg) ->
  callsOf (getStrategies T cfg) w
    = [Call_isViewEngineIvy; Call_isViewEngineIvy] /\
  heap (after (getStrategies T cfg) w) = heap w /\
  nextId (after (getStrategies T cfg) w) = nextId w /\
  resolvedPromise (after (getStrategies T cfg) w) = resolvedPromise w.
Proof.
  intros [o Ho]. unfold callsOf, after.
  rewrite (getStrategies_run T cfg w o Ho). cbn.
  repeat split. rewrite <- app_assoc. apply callsOf_logged.
Qed.

Lemma registry_build_footprint_witness :
  callsOf (getStrategies nat sampleConfig) ivyZoneWorld
    = [Call_isViewEngineIvy; Call_isViewEngineIvy] /\
  heap (after (getStrategies nat sampleConfig) ivyZoneWorld)
    = heap ivyZoneWorld /\
  nextId (after (getStrategies nat sampleConfig) ivyZoneWorld)
    = nextId ivyZoneWorld /\
  resolvedPromise (after (getStrategies nat sampleConfig) ivyZoneWorld)
    = resolvedPromise ivyZoneWorld.
Proof.
  apply (registry_build_footprint nat sampleConfig ivyZoneWorld).
  exists {| _lView := Some 100%N; context := Some 200%N |}.
  vm_compute. reflexivity.
Defined.



(** A primitive [cdRef] is another matter: reading a field of a number
    or a string gives [undefined], so the registry is built, and the
    context key of [local] is [undefined]. *)
Lemma getStrategies_primitive_cdRef (T : Type)
    (cfg : StrategyFactoryConfig) (w : World) :
  heap w !! cdRef cfg = None ->
  cdRef cfg ∈ primitives w ->
  outcome (getStrategies T cfg) w =
  Returned
    (<["native" := createNativeStrategy T cfg]>
     (<["noop" := createNoopStrategy T None]>
      (<["global" := globalStrategyOf T (ivy w) cfg]>
       (<["local" := localStrategyOf T (ivy w) None cfg]> ∅)))).
Proof.
  intros Ho Hp. unfold outcome, getStrategies.
  rewrite bind_run, createGlobalStrategy_run, bind_run.
  rewrite createLocalStrategy_primitive by assumption. reflexivity.
Qed.

Example getStrategies_primitive_sample :
  exists m : gmap string (CdStrategy nat),
    outcome (getStrategies nat primitiveConfig) primitiveWorld
      = Returned m /\
    dom m = list_to_set strategyNames.
Proof.
  eexists. split.
  - apply getStrategies_primitive_cdRef.
    + vm_compute. reflexivity.
    + vm_compute. reflexivity.
  - rewrite !dom_insert_L, dom_empty_L. unfold strategyNames. simpl.
    set_solver.
Qed.

(** X3: the registry hands out what the factories build: each entry is
    the strategy its factory returns, alone, for the same config in the
    same host; in particular the default name resolves to the strategy
    of [createLocalStrategy]. *)
Theorem registry_entries_are_factory_results (T : Type)
    (cfg : StrategyFactoryConfig) (w : World) :
  is_Some (heap w !! cdRef cfg) ->
  exists (m : gmap string (CdStrategy T)) (g l : CdStrategy T),
    outcome (getStrategies T cfg) w = Returned m /\
    outcome (createGlobalStrategy T cfg) w = Returned g /\
    outcome (createLocalStrategy T cfg) w = Returned l /\
    m !! "native" = Some (createNativeStrategy T cfg) /\
    m !! "noop" = Some (createNoopStrategy T None) /\
    m !! "global" = Some g /\
    m !! DEFAULT_STRATEGY_NAME = Some l.
Proof.
  intros [o Ho]. eexists _, _, _. unfold outcome.
  rewrite (getStrategies_run T cfg w o Ho), createGlobalStrategy_run,
    (createLocalStrategy_run T cfg w o Ho).
  cbn [fst]. repeat split.
Qed.

Lemma registry_entries_are_factory_results_witness :
  exists (m : gmap string (CdStrategy nat)) (g l : CdStrategy nat),
    outcome (getStrategies nat sampleConfig) legacyWorld = Returned m /\
    outcome (createGlobalStrategy nat sampleConfig) legacyWorld
      = Returned g /\
    outcome (createLocalStrategy nat sampleConfig) legacyWorld
      = Returned l /\
    m !! "native" = Some (createNativeStrategy nat sampleConfig) /\
    m !! "noop" = Some (createNoopStrategy nat None) /\
    m !! "global" = Some g /\
    m !! DEFAULT_STRATEGY_NAME = Some l.
Proof.
  apply (registry_entries_are_factory_results nat sampleConfig legacyWorld).
  exists {| _lView := None; context := Some 200%N |}.
  vm_compute. reflexivity.
Defined.

(** ** Rendering many times, and rendering without a [cdRef] *)

Lemma repeatM_logs (m : M unit) (c : HostCall) (ref : N) (k : nat)
    (w : World) :
  (forall w1 : World,
     is_Some (heap w1 !! ref) -> m w1 = (Returned tt, logCall c w1)) ->
  is_Some (heap w !! ref) ->
  exists w' : World,
    repeatM k m w = (Returned tt, w') /\
    heap w' = heap w /\
    calls w' = calls w ++ replicate k c.
Proof.
  intros Hm. revert w. induction k as [| k IH]; intros w Hw.
  - exists w. cbn. rewrite app_nil_r. repeat split.
  - destruct (IH (logCall c w)) as (w' & Hrun & Hheap & Hcalls);
      [exact Hw |].
    exists w'. cbn [repeatM]. rewrite bind_run, (Hm w Hw), Hrun.
    split; [reflexivity |]. split; [exact Hheap |].
    rewrite Hcalls. cbn. rewrite <- app_assoc. reflexivity.
Qed.

Lemma callsOf_repeatM (m : M unit) (c : HostCall) (ref : N) (k : nat)
    (w : World) :
  (forall w1 : World,
     is_Some (heap w1 !! ref) -> m w1 = (Returned tt, logCall c w1)) ->
  is_Some (heap w !! ref) ->
  outcome (repeatM k m) w = Returned tt /\
  callsOf (repeatM k m) w = replicate k c.
Proof.
  intros Hm Hw.
  destruct (repeatM_logs m c ref k w Hm Hw) as (w' & Hrun & _ & Hcalls).
  unfold outcome, callsOf, after. rewrite Hrun. cbn.
  split; [reflexivity |]. rewrite Hcalls. apply callsOf_logged.
Qed.

Lemma cdRef_markForCheck_live (ref : N) (w : World) :
  is_Some (heap w !! ref) ->
  cdRef_markForCheck ref w = (Returned tt, logCall (Call_markForCheck ref) w).
Proof.
  intros [o Ho]. unfold cdRef_markForCheck. rewrite bind_run. cbn.
  rewrite Ho. reflexivity.
Qed.

Lemma cdRef_detectChanges_live (ref : N) (w : World) :
  is_Some (heap w !! ref) ->
  cdRef_detectChanges ref w
    = (Returned tt, logCall (Call_cdRef_detectChanges ref) w).
Proof.
  intros [o Ho]. unfold cdRef_detectChanges. rewrite bind_run. cbn.
  rewrite Ho. reflexivity.
Qed.

Lemma cdRef_markForCheck_gone (ref : N) (w : World) :
  heap w !! ref = None ->
  cdRef_markForCheck ref w = (Thrown (TypeError "markForCheck"), w).
Proof.
  intros Ho. unfold cdRef_markForCheck. rewrite bind_run. cbn.
  rewrite Ho. reflexivity.
Qed.

Lemma cdRef_detectChanges_gone (ref : N) (w : World) :
  heap w !! ref = None ->
  cdRef_detectChanges ref w = (Thrown (TypeError "detectChanges"), w).
Proof.
  intros Ho. unfold cdRef_detectChanges. rewrite bind_run. cbn.
  rewrite Ho. reflexivity.
Qed.

(** X4: render is never batched by a strategy.  For the strategies
    built from a valid config in host [w0], [k] render calls in a host
    where the [cdRef] is live all return and make exactly [k] host
    calls, each the one picked at construction ([native] always
    [markForCheck]); [k] renders of [noop] make none. *)
Theorem render_is_never_batched (T : Type) (cfg : StrategyFactoryConfig)
    (w0 w : World) (k : nat) :
  is_Some (heap w0 !! cdRef cfg) ->
  is_Some (heap w !! cdRef cfg) ->
  exists g l : CdStrategy T,
    outcome (createGlobalStrategy T cfg) w0 = Returned g /\
    outcome (createLocalStrategy T cfg) w0 = Returned l /\
    (outcome (repeatM k (render (createNativeStrategy T cfg) tt)) w
       = Returned tt /\
     callsOf (repeatM k (render (createNativeStrategy T cfg) tt)) w
       = replicate k (Call_markForCheck (cdRef cfg))) /\
    (outcome (repeatM k (render (createNoopStrategy T None) tt)) w
       = Returned tt /\
     callsOf (repeatM k (render (createNoopStrategy T None) tt)) w = []) /\
    (outcome (repeatM k (render g tt)) w = Returned tt /\
     callsOf (repeatM k (render g tt)) w
       = replicate k (if ivy w0 then Call_markDirty (component cfg)
                      else Call_markForCheck (cdRef cfg))) /\
    (outcome (repeatM k (render l tt)) w = Returned tt /\
     callsOf (repeatM k (render l tt)) w
       = replicate k (if ivy w0 then Call_detectChanges (component cfg)
                      else Call_cdRef_detectChanges (cdRef cfg))).
Proof.
  intros [o Ho] Hw.
  exists (globalStrategyOf T (ivy w0) cfg),
         (localStrategyOf T (ivy w0) (contextKey w0 o) cfg).
  split; [unfold outcome; rewrite createGlobalStrategy_run; reflexivity |].
  split; [unfold outcome; rewrite (createLocalStrategy_run T cfg w0 o Ho);
          reflexivity |].
  cbn [render createNativeStrategy createNoopStrategy globalStrategyOf
       localStrategyOf].
  split; [| split; [| split]].
  - apply (callsOf_repeatM _ _ (cdRef cfg)); [| exact Hw].
    intros w1 Hw1. apply cdRef_markForCheck_live, Hw1.
  - assert (Hnoop : repeatM k (ret tt) w = (Returned tt, w)).
    { clear. induction k as [| k IH]; [reflexivity |].
      cbn [repeatM]. rewrite bind_run. exact IH. }
    unfold outcome, callsOf, after. rewrite Hnoop. cbn.
    split; [reflexivity | apply drop_all].
  - destruct (ivy w0); cbn [negb];
      apply (callsOf_repeatM _ _ (cdRef cfg)); try exact Hw.
    + intros w1 _. reflexivity.
    + intros w1 Hw1. apply cdRef_markForCheck_live, Hw1.
  - destruct (ivy w0); cbn [negb];
      apply (callsOf_repeatM _ _ (cdRef cfg)); try exact Hw.
    + intros w1 _. reflexivity.
    + intros w1 Hw1. apply cdRef_detectChanges_live, Hw1.
Qed.

Lemma render_is_never_batched_witness :
  exists g l : CdStrategy nat,
    outcome (createGlobalStrategy nat sampleConfig) ivyZoneWorld
      = Returned g /\
    outcome (createLocalStrategy nat sampleConfig) ivyZoneWorld
      = Returned l /\
    (outcome (repeatM 3 (render (createNativeStrategy nat sampleConfig) tt))
       legacyWorld = Returned tt /\
     callsOf (repeatM 3 (render (createNativeStrategy nat sampleConfig) tt))
       legacyWorld = replicate 3 (Call_markForCheck 7%N)) /\
    (outcome (repeatM 3 (render (createNoopStrategy nat None) tt))
       legacyWorld = Returned tt /\
     callsOf (repeatM 3 (render (createNoopStrategy nat None) tt))
       legacyWorld = []) /\
    (outcome (repeatM 3 (render g tt)) legacyWorld = Returned tt /\
     callsOf (repeatM 3 (render g tt)) legacyWorld
       = replicate 3 (Call_markDirty 3%N)) /\
    (outcome (repeatM 3 (render l tt)) legacyWorld = Returned tt /\
     callsOf (repeatM 3 (render l tt)) legacyWorld
       = replicate 3 (Call_detectChanges 3%N)).
Proof.
  apply (render_is_never_batched nat sampleConfig ivyZoneWorld legacyWorld 3).
  - exists {| _lView := Some 100%N; context := Some 200%N |}.
    vm_compute. reflexivity.
  - exists {| _lView := None; context := Some 200%N |}.
    vm_compute. reflexivity.
Defined.

(** X5: rendering after the [cdRef] is gone.  [native] throws a
    [TypeError] and leaves the host as it was; [global] and [local]
    built on the legacy engine do the same; built on the current engine
    they do not use the [cdRef] and render as before. *)
Theorem render_without_cdRef (T : Type) (cfg : StrategyFactoryConfig)
    (w0 w : World) :
  is_Some (heap w0 !! cdRef cfg) ->
  heap w !! cdRef cfg = None ->
  exists g l : CdStrategy T,
    outcome (createGlobalStrategy T cfg) w0 = Returned g /\
    outcome (createLocalStrategy T cfg) w0 = Returned l /\
    render (createNativeStrategy T cfg) tt w
      = (Thrown (TypeError "markForCheck"), w) /\
    (ivy w0 = false ->
       render g tt w = (Thrown (TypeError "markForCheck"), w) /\
       render l tt w = (Thrown (TypeError "detectChanges"), w)) /\
    (ivy w0 = true ->
       render g tt w
         = (Returned tt, logCall (Call_markDirty (component cfg)) w) /\
       render l tt w
         = (Returned tt, logCall (Call_detectChanges (component cfg)) w)).
Proof.
  intros [o Ho] Hw.
  exists (globalStrategyOf T (ivy w0) cfg),
         (localStrategyOf T (ivy w0) (contextKey w0 o) cfg).
  split; [unfold outcome; rewrite createGlobalStrategy_run; reflexivity |].
  split; [unfold outcome; rewrite (createLocalStrategy_run T cfg w0 o Ho);
          reflexivity |].
  cbn [render createNativeStrategy globalStrategyOf localStrategyOf].
  split; [apply cdRef_markForCheck_gone, Hw |].
  split; intros ->; cbn [negb].
  - split; [apply cdRef_markForCheck_gone, Hw
           | apply cdRef_detectChanges_gone, Hw].
  - split; reflexivity.
Qed.

Lemma render_without_cdRef_witness :
  exists g l : CdStrategy nat,
    outcome (createGlobalStrategy nat sampleConfig) legacyWorld
      = Returned g /\
    outcome (createLocalStrategy nat sampleConfig) legacyWorld
      = Returned l /\
    render (createNativeStrategy nat sampleConfig) tt detachedWorld
      = (Thrown (TypeError "markForCheck"), detachedWorld) /\
    (ivy legacyWorld = false ->
       render g tt detachedWorld
         = (Thrown (TypeError "markForCheck"), detachedWorld) /\
       render l tt detachedWorld
         = (Thrown (TypeError "detectChanges"), detachedWorld)) /\
    (ivy legacyWorld = true ->
       render g tt detachedWorld
         = (Returned tt, logCall (Call_markDirty 3%N) detachedWorld) /\
       render l tt detachedWorld
         = (Returned tt, logCall (Call_detectChanges 3%N) detachedWorld)).
Proof.
  apply (render_without_cdRef nat sampleConfig legacyWorld detachedWorld).
  - exists {| _lView := None; context := Some 200%N |}.
    vm_compute. reflexivity.
  - vm_compute. reflexivity.
Defined.

(** ** The shared resolved promise *)

Lemma Promise_resolve_run (zoneSymbol : bool) (w : World) :
  (zoneSymbol = true -> zoneSymbolPromise w = true) ->
  Promise_resolve zoneSymbol w =
  (Returned {| promise_id := nextId w; fromZoneSymbol := zoneSymbol |},
   logCall (Call_Promise_resolve zoneSymbol) (bumpId w)).
Proof.
  intros Hz. unfold Promise_resolve. rewrite bind_run. cbn.
  destruct zoneSymbol; cbn; [rewrite Hz by reflexivity |]; reflexivity.
Qed.

Lemma Promise_resolve_missing (w : World) :
  zoneSymbolPromise w = false ->
  Promise_resolve true w = (Thrown (TypeError "__zone_symbol__Promise"), w).
Proof.
  intros Hz. unfold Promise_resolve. rewrite bind_run. cbn.
  rewrite Hz. reflexivity.
Qed.

(** X6: the first call of [getResolvedPromise].  With nothing cached it
    asks [apiZonePatched('Promise')] once, makes a new promise with the
    zone symbol constructor if the answer is yes and with the ambient
    one if not, stores it in the cache and returns it. *)
Theorem getResolvedPromise_first_call (w : World) :
  resolvedPromise w = None ->
  (zonePatched w "Promise" = true -> zoneSymbolPromise w = true) ->
  let p := {| promise_id := nextId w;
              fromZoneSymbol := zonePatched w "Promise" |} in
  outcome getResolvedPromise w = Returned p /\
  resolvedPromise (after getResolvedPromise w) = Some p /\
  callsOf getResolvedPromise w
    = [Call_apiZonePatched "Promise";
       Call_Promise_resolve (zonePatched w "Promise")].
Proof.
  intros Hnone Hz p.
  assert (Hrun : getResolvedPromise w =
    (Returned p,
     setResolvedPromise p
       (logCall (Call_Promise_resolve (zonePatched w "Promise"))
          (bumpId (logCall (Call_apiZonePatched "Promise") w))))).
  { unfold getResolvedPromise. rewrite bind_run. cbn [getWorld].
    rewrite Hnone, bind_run.
    change (apiZonePatched "Promise" w)
      with (Returned (zonePatched w "Promise"),
            logCall (Call_apiZonePatched "Promise") w).
    cbv beta iota. rewrite bind_run.
    destruct (zonePatched w "Promise") eqn:Hb.
    - rewrite Promise_resolve_run by (intros _; cbn; auto). reflexivity.
    - rewrite Promise_resolve_run by discriminate. reflexivity. }
  unfold outcome, callsOf, after. rewrite Hrun. cbn.
  repeat split. rewrite <- app_assoc. apply callsOf_logged.
Qed.

Lemma getResolvedPromise_first_call_witness :
  let p := {| promise_id := 0%N; fromZoneSymbol := true |} in
  outcome getResolvedPromise ivyZoneWorld = Returned p /\
  resolvedPromise (after getResolvedPromise ivyZoneWorld) = Some p /\
  callsOf getResolvedPromise ivyZoneWorld
    = [Call_apiZonePatched "Promise"; Call_Promise_resolve true].
Proof.
  apply (getResolvedPromise_first_call ivyZoneWorld).
  - vm_compute. reflexivity.
  - intros _. vm_compute. reflexivity.
Defined.

(** X7: the cached promise is never handed out again.  With a promise
    [p] in the cache, made earlier, a call does not ask
    [apiZonePatched]; it makes a new promise [q] with the zone symbol
    constructor, different from [p], returns [q] and replaces the
    cache by it. *)
Theorem getResolvedPromise_never_reuses_cache (w : World) (p : JsPromise) :
  resolvedPromise w = Some p ->
  zoneSymbolPromise w = true ->
  (promise_id p < nextId w)%N ->
  exists q : JsPromise,
    outcome getResolvedPromise w = Returned q /\
    q <> p /\
    fromZoneSymbol q = true /\
    resolvedPromise (after getResolvedPromise w) = Some q /\
    callsOf getResolvedPromise w = [Call_Promise_resolve true].
Proof.
  intros Hp Hz Hold.
  exists {| promise_id := nextId w; fromZoneSymbol := true |}.
  unfold outcome, callsOf, after.
  rewrite (getResolvedPromise_cached w p Hp Hz). cbn.
  repeat split.
  - intros Heq. rewrite <- Heq in Hold. cbn in Hold. lia.
  - apply callsOf_logged.
Qed.

Lemma getResolvedPromise_never_reuses_cache_witness :
  exists q : JsPromise,
    outcome getResolvedPromise (after getResolvedPromise ivyZoneWorld)
      = Returned q /\
    q <> {| promise_id := 0%N; fromZoneSymbol := true |} /\
    fromZoneSymbol q = true /\
    resolvedPromise
      (after getResolvedPromise (after getResolvedPromise ivyZoneWorld))
      = Some q /\
    callsOf getResolvedPromise (after getResolvedPromise ivyZoneWorld)
      = [Call_Promise_resolve true].
Proof.
  apply (getResolvedPromise_never_reuses_cache
           (after getResolvedPromise ivyZoneWorld)
           {| promise_id := 0%N; fromZoneSymbol := true |}).
  - vm_compute. reflexivity.
  - vm_compute. reflexivity.
  - vm_compute. reflexivity.
Defined.

(** X8: on a host where [__zone_symbol__Promise] is not defined, the
    second of two calls of [getResolvedPromise] never returns: whatever
    the cache and the detection check say, the pair of calls ends in a
    [TypeError] on the missing constructor. *)
Theorem getResolvedPromise_second_call_needs_zone (w : World) :
  zoneSymbolPromise w = false ->
  outcome (getResolvedPromise ≫= fun _ => getResolvedPromise) w
    = Thrown (TypeError "__zone_symbol__Promise").
Proof.
  intros Hz. unfold outcome. rewrite bind_run.
  assert (Hcached : forall (w1 : World) (p : JsPromise),
    resolvedPromise w1 = Some p -> zoneSymbolPromise w1 = false ->
    getResolvedPromise w1
      = (Thrown (TypeError "__zone_symbol__Promise"), w1)).
  { intros w1 p Hp Hz1. unfold getResolvedPromise.
    rewrite bind_run. cbn [getWorld]. rewrite Hp, bind_run. cbn [ret].
    rewrite bind_run, (Promise_resolve_missing w1 Hz1). reflexivity. }
  destruct (resolvedPromise w) as [p |] eqn:Hp.
  - rewrite (Hcached w p Hp Hz). reflexivity.
  - unfold getResolvedPromise at 1. rewrite bind_run. cbn [getWorld].
    rewrite Hp, bind_run.
    change (apiZonePatched "Promise" w)
      with (Returned (zonePatched w "Promise"),
            logCall (Call_apiZonePatched "Promise") w).
    cbv beta iota. rewrite bind_run.
    destruct (zonePatched w "Promise").
    + rewrite Promise_resolve_missing by exact Hz. reflexivity.
    + rewrite Promise_resolve_run by discriminate.
      cbv beta iota. rewrite bind_run. cbn [modifyWorld ret].
      erewrite Hcached; [reflexivity | reflexivity | exact Hz].
Qed.

Lemma getResolvedPromise_second_call_needs_zone_witness :
  outcome (getResolvedPromise ≫= fun _ => getResolvedPromise) legacyWorld
    = Thrown (TypeError "__zone_symbol__Promise").
Proof.
  apply (getResolvedPromise_second_call_needs_zone legacyWorld).
  vm_compute. reflexivity.
Defined.

(* ================================================================== *)
(** * The item generator of the iterable-differ demo *)

(** ** One item *)

Lemma append_empty (s : string) : s +:+ "" = s.
Proof.
  induction s as [| a s IH]; [reflexivity |].
  change (String a s +:+ "") with (String a (s +:+ "")).
  rewrite IH. reflexivity.
Qed.

Lemma MAX_EXACT_value :
  RxIterableDiffer.MAX_EXACT = 9007199254740992%N.
Proof. reflexivity. Qed.

Lemma increment_exact (n : N) :
  (n < RxIterableDiffer.MAX_EXACT)%N ->
  RxIterableDiffer.increment n = N.succ n.
Proof.
  intros Hn. unfold RxIterableDiffer.increment.
  apply N.ltb_lt in Hn. rewrite Hn. reflexivity.
Qed.

Lemma increment_saturated :
  RxIterableDiffer.increment RxIterableDiffer.MAX_EXACT
  = RxIterableDiffer.MAX_EXACT.
Proof. reflexivity. Qed.

Lemma getNewItem_item (itemIdx : N) :
  RxIterableDiffer.getNewItem itemIdx
  = (RxIterableDiffer.itemAt itemIdx, RxIterableDiffer.increment itemIdx).
Proof.
  unfold RxIterableDiffer.getNewItem, RxIterableDiffer.itemAt,
    RxIterableDiffer.toString.
  cbn [replicate fmap list_fmap RxIterableDiffer.join foldr].
  rewrite append_empty. reflexivity.
Qed.

(** ** Runs of items *)

Lemma countFrom_shift (start : N) (j n : nat) :
  (fun i : nat => (start + N.of_nat i)%N) <$> seq (S j) n
  = (fun i : nat => (N.succ start + N.of_nat i)%N) <$> seq j n.
Proof.
  revert j. induction n as [| n IH]; intros j; [reflexivity |].
  cbn [seq fmap list_fmap]. f_equal; [lia | apply IH].
Qed.

Lemma countFrom_S (start : N) (n : nat) :
  RxIterableDiffer.countFrom start (S n)
  = start :: RxIterableDiffer.countFrom (N.succ start) n.
Proof.
  unfold RxIterableDiffer.countFrom. cbn [seq fmap list_fmap].
  f_equal; [lia | apply countFrom_shift].
Qed.

Lemma length_countFrom (start : N) (n : nat) :
  length (RxIterableDiffer.countFrom start n) = n.
Proof.
  unfold RxIterableDiffer.countFrom. rewrite length_fmap. apply length_seq.
Qed.

Lemma countFrom_bounds (start : N) (n : nat) :
  Forall (fun x => (start <= x < start + N.of_nat n)%N)
    (RxIterableDiffer.countFrom start n).
Proof.
  revert start. induction n as [| n IH]; intros start.
  - constructor.
  - rewrite countFrom_S. constructor; [lia |].
    eapply Forall_impl; [apply IH |]. intros x Hx. cbn beta in Hx. lia.
Qed.

Lemma NoDup_countFrom (start : N) (n : nat) :
  NoDup (RxIterableDiffer.countFrom start n).
Proof.
  revert start. induction n as [| n IH]; intros start.
  - constructor.
  - rewrite countFrom_S. apply NoDup_cons. split; [| apply IH].
    intros Hin.
    pose proof (countFrom_bounds (N.succ start) n) as Hb.
    rewrite Forall_forall in Hb. specialize (Hb start Hin). lia.
Qed.

Lemma countFrom_app (start : N) (n m : nat) :
  RxIterableDiffer.countFrom start (n + m)
  = RxIterableDiffer.countFrom start n
    ++ RxIterableDiffer.countFrom (start + N.of_nat n) m.
Proof.
  revert start. induction n as [| n IH]; intros start.
  - cbn [Nat.add]. unfold RxIterableDiffer.countFrom at 2. cbn.
    f_equal. lia.
  - change (S n + m)%nat with (S (n + m)). rewrite !countFrom_S, IH.
    cbn [app]. do 3 f_equal. lia.
Qed.

Lemma mapGetNewItem_exact (n : nat) (itemIdx : N) :
  (itemIdx + N.of_nat n <= RxIterableDiffer.MAX_EXACT)%N ->
  RxIterableDiffer.mapGetNewItem n itemIdx
  = (RxIterableDiffer.itemAt <$> RxIterableDiffer.countFrom itemIdx n,
     (itemIdx + N.of_nat n)%N).
Proof.
  revert itemIdx. induction n as [| n IH]; intros itemIdx Hb.
  - cbn. f_equal. lia.
  - cbn [RxIterableDiffer.mapGetNewItem].
    rewrite getNewItem_item, increment_exact by lia.
    rewrite IH by lia. rewrite countFrom_S. cbn [fmap list_fmap].
    f_equal. lia.
Qed.

Lemma mapGetNewItem_saturated (n : nat) :
  RxIterableDiffer.mapGetNewItem n RxIterableDiffer.MAX_EXACT
  = (replicate n (RxIterableDiffer.itemAt RxIterableDiffer.MAX_EXACT),
     RxIterableDiffer.MAX_EXACT).
Proof.
  induction n as [| n IH]; [reflexivity |].
  cbn [RxIterableDiffer.mapGetNewItem replicate].
  rewrite getNewItem_item, increment_saturated, IH. reflexivity.
Qed.

Lemma getItems_valid_length (num : Z) (itemIdx : N) :
  (0 <= num <= RxIterableDiffer.MAX_ARRAY_LENGTH)%Z ->
  RxIterableDiffer.getItems num itemIdx
  = (let (items, itemIdx') :=
       RxIterableDiffer.mapGetNewItem (Z.to_nat num) itemIdx in
     (inr items, itemIdx')).
Proof.
  intros [Hlo Hhi]. unfold RxIterableDiffer.getItems.
  apply Z.ltb_ge in Hlo. apply Z.ltb_ge in Hhi. rewrite Hlo, Hhi.
  reflexivity.
Qed.

Lemma ids_of_items (ns : list N) :
  RxIterableDiffer.id <$> (RxIterableDiffer.itemAt <$> ns) = pretty <$> ns.
Proof.
  induction ns as [| n ns IH]; [reflexivity |].
  cbn [fmap list_fmap]. f_equal. exact IH.
Qed.

Lemma getItems_run (num : Z) (itemIdx : N) :
  (0 <= num <= RxIterableDiffer.MAX_ARRAY_LENGTH)%Z ->
  (itemIdx + Z.to_N num <= RxIterableDiffer.MAX_EXACT)%N ->
  RxIterableDiffer.getItems num itemIdx
  = (inr (RxIterableDiffer.itemAt <$>
            RxIterableDiffer.countFrom itemIdx (Z.to_nat num)),
     (itemIdx + Z.to_N num)%N).
Proof.
  intros Hnum Hb. rewrite (getItems_valid_length num itemIdx Hnum).
  rewrite mapGetNewItem_exact by lia. f_equal. lia.
Qed.

(** X9: [getItems(num)] for an array length [num], while the counter
    stays exact: it returns [num] items, the i-th with the decimal
    digits of [itemIdx + i] as id and those digits four times over as
    value, and it leaves the counter at [itemIdx + num]. *)
Theorem getItems_consecutive_items (num : Z) (itemIdx : N) :
  (0 <= num <= RxIterableDiffer.MAX_ARRAY_LENGTH)%Z ->
  (itemIdx + Z.to_N num <= RxIterableDiffer.MAX_EXACT)%N ->
  RxIterableDiffer.getItems num itemIdx
  = (inr (RxIterableDiffer.itemAt <$>
            RxIterableDiffer.countFrom itemIdx (Z.to_nat num)),
     (itemIdx + Z.to_N num)%N).
Proof.
  intros [Hlo Hhi] Hb. unfold RxIterableDiffer.getItems.
  apply Z.ltb_ge in Hlo. apply Z.ltb_ge in Hhi. rewrite Hlo, Hhi.
  cbn [orb]. rewrite mapGetNewItem_exact by lia. f_equal. lia.
Qed.

Lemma getItems_consecutive_items_witness :
  RxIterableDiffer.getItems 3 9
  = (inr (RxIterableDiffer.itemAt <$>
            RxIterableDiffer.countFrom 9 (Z.to_nat 3)),
     (9 + Z.to_N 3)%N).
Proof.
  apply (getItems_consecutive_items 3 9).
  - vm_compute. split; discriminate.
  - vm_compute. discriminate.
Defined.

(** X10: the ids [getItems] hands out in one call are pairwise
    different, and every item's value is its id four times over. *)
Theorem getItems_ids_unique (num : Z) (itemIdx : N) :
  (0 <= num <= RxIterableDiffer.MAX_ARRAY_LENGTH)%Z ->
  (itemIdx + Z.to_N num <= RxIterableDiffer.MAX_EXACT)%N ->
  exists items : list RxIterableDiffer.Item,
    fst (RxIterableDiffer.getItems num itemIdx) = inr items /\
    length items = Z.to_nat num /\
    NoDup (RxIterableDiffer.id <$> items) /\
    Forall (fun i =>
              RxIterableDiffer.value i
              = RxIterableDiffer.id i +:+ RxIterableDiffer.id i +:+
                RxIterableDiffer.id i +:+ RxIterableDiffer.id i) items.
Proof.
  intros Hnum Hb. eexists.
  rewrite (getItems_run num itemIdx Hnum Hb). cbn [fst].
  split; [reflexivity |]. split; [| split].
  - rewrite length_fmap. apply length_countFrom.
  - rewrite ids_of_items. apply (NoDup_fmap_2 pretty), NoDup_countFrom.
  - apply Forall_fmap, Forall_true. intros n. reflexivity.
Qed.

Lemma getItems_ids_unique_witness :
  exists items : list RxIterableDiffer.Item,
    fst (RxIterableDiffer.getItems 500 4) = inr items /\
    length items = Z.to_nat 500 /\
    NoDup (RxIterableDiffer.id <$> items) /\
    Forall (fun i =>
              RxIterableDiffer.value i
              = RxIterableDiffer.id i +:+ RxIterableDiffer.id i +:+
                RxIterableDiffer.id i +:+ RxIterableDiffer.id i) items.
Proof.
  apply (getItems_ids_unique 500 4).
  - vm_compute. split; discriminate.
  - vm_compute. discriminate.
Defined.

(** X11: ids are not reused from one call to the next.  Two calls of
    [getItems] in a row give the items one call for the sum of the two
    lengths gives, so all their ids are pairwise different. *)
Theorem getItems_calls_compose (a b : Z) (itemIdx : N) :
  (0 <= a)%Z -> (0 <= b)%Z ->
  (a + b <= RxIterableDiffer.MAX_ARRAY_LENGTH)%Z ->
  (itemIdx + Z.to_N (a + b) <= RxIterableDiffer.MAX_EXACT)%N ->
  exists (xs ys : list RxIterableDiffer.Item) (idx1 idx2 : N),
    RxIterableDiffer.getItems a itemIdx = (inr xs, idx1) /\
    RxIterableDiffer.getItems b idx1 = (inr ys, idx2) /\
    RxIterableDiffer.getItems (a + b) itemIdx = (inr (xs ++ ys), idx2) /\
    NoDup (RxIterableDiffer.id <$> xs ++ ys).
Proof.
  intros Ha Hb Hlen Hexact.
  exists (RxIterableDiffer.itemAt <$>
            RxIterableDiffer.countFrom itemIdx (Z.to_nat a)),
         (RxIterableDiffer.itemAt <$>
            RxIterableDiffer.countFrom (itemIdx + Z.to_N a) (Z.to_nat b)),
         (itemIdx + Z.to_N a)%N, (itemIdx + Z.to_N (a + b))%N.
  assert (Hsum : RxIterableDiffer.countFrom itemIdx (Z.to_nat (a + b))
                 = RxIterableDiffer.countFrom itemIdx (Z.to_nat a)
                   ++ RxIterableDiffer.countFrom (itemIdx + Z.to_N a)
                        (Z.to_nat b)).
  { rewrite Z2Nat.inj_add by lia. rewrite countFrom_app.
    do 2 f_equal. lia. }
  split; [| split; [| split]].
  - apply getItems_run; lia.
  - rewrite getItems_run by lia. f_equal. lia.
  - rewrite getItems_run by lia.
    rewrite Hsum, fmap_app. reflexivity.
  - rewrite <- fmap_app, <- Hsum, ids_of_items.
    apply (NoDup_fmap_2 pretty), NoDup_countFrom.
Qed.

Lemma getItems_calls_compose_witness :
  exists (xs ys : list RxIterableDiffer.Item) (idx1 idx2 : N),
    RxIterableDiffer.getItems 2 0 = (inr xs, idx1) /\
    RxIterableDiffer.getItems 3 idx1 = (inr ys, idx2) /\
    RxIterableDiffer.getItems (2 + 3) 0 = (inr (xs ++ ys), idx2) /\
    NoDup (RxIterableDiffer.id <$> xs ++ ys).
Proof.
  apply (getItems_calls_compose 2 3 0).
  - discriminate.
  - discriminate.
  - vm_compute. discriminate.
  - vm_compute. discriminate.
Defined.

(** X12: once the counter has reached 2^53 it no longer moves, and
    every item made from then on is the same item: [getItems(num)]
    returns [num] copies of it, all with the id 9007199254740992. *)
Theorem getItems_saturated_counter_repeats (num : Z) :
  (0 <= num <= RxIterableDiffer.MAX_ARRAY_LENGTH)%Z ->
  RxIterableDiffer.getItems num RxIterableDiffer.MAX_EXACT
  = (inr (replicate (Z.to_nat num)
            (RxIterableDiffer.itemAt RxIterableDiffer.MAX_EXACT)),
     RxIterableDiffer.MAX_EXACT) /\
  RxIterableDiffer.id (RxIterableDiffer.itemAt RxIterableDiffer.MAX_EXACT)
  = "9007199254740992".
Proof.
  intros Hnum. split.
  - rewrite (getItems_valid_length _ _ Hnum), mapGetNewItem_saturated.
    reflexivity.
  - vm_compute. reflexivity.
Qed.

Lemma getItems_saturated_counter_repeats_witness :
  RxIterableDiffer.getItems 2 RxIterableDiffer.MAX_EXACT
  = (inr (replicate (Z.to_nat 2)
            (RxIterableDiffer.itemAt RxIterableDiffer.MAX_EXACT)),
     RxIterableDiffer.MAX_EXACT) /\
  RxIterableDiffer.id (RxIterableDiffer.itemAt RxIterableDiffer.MAX_EXACT)
  = "9007199254740992".
Proof.
  apply (getItems_saturated_counter_repeats 2).
  vm_compute. split; discriminate.
Defined.

(** ** The change sets *)

Lemma NoDup_keys (items : list RxIterableDiffer.Item) (ns : list N) :
  RxIterableDiffer.id <$> items = pretty <$> ns ->
  NoDup ns ->
  NoDup (imap RxIterableDiffer.trackById items).
Proof.
  intros Hids Hnd.
  change (imap RxIterableDiffer.trackById items)
    with (imap (const RxIterableDiffer.id) items).
  rewrite imap_const, Hids. apply (NoDup_fmap_2 pretty), Hnd.
Qed.

Lemma NoDup_front_tail (front tail : list N) (bound : N) :
  NoDup front ->
  Forall (fun x => (x < bound)%N) front ->
  Forall (fun x => (bound <= x)%N) tail ->
  NoDup tail ->
  NoDup (front ++ tail).
Proof.
  intros Hf Hlt Hge Ht. apply NoDup_app. split; [exact Hf |].
  split; [| exact Ht].
  intros x Hx Hx'. rewrite Forall_forall in Hlt, Hge.
  specialize (Hlt x Hx). specialize (Hge x Hx'). cbn beta in Hlt, Hge. lia.
Qed.

(** X13: the change sets the module builds when it loads.  Started with
    the counter at [itemIdx] (0 in the file), the load makes 504 items,
    the twelve change sets have the lengths 0, 504, 503, 3, 0, 503, 504,
    3, 0, 504, 503, 3, and inside every change set [trackById] gives
    each item a key of its own. *)
Theorem customChangeSet_keys_unique (itemIdx : N) :
  (itemIdx + 504 <= RxIterableDiffer.MAX_EXACT)%N ->
  exists sets : list (list RxIterableDiffer.Item),
    RxIterableDiffer.customChangeSetFrom itemIdx
      = (inr sets, (itemIdx + 504)%N) /\
    length <$> sets
      = [0; 504; 503; 3; 0; 503; 504; 3; 0; 504; 503; 3]%nat /\
    Forall (fun cs => NoDup (imap RxIterableDiffer.trackById cs)) sets.
Proof.
  intros Hb. rewrite MAX_EXACT_value in Hb.
  unfold RxIterableDiffer.customChangeSetFrom.
  rewrite (getNewItem_item itemIdx), increment_exact
    by (rewrite MAX_EXACT_value; lia).
  rewrite (getNewItem_item (N.succ itemIdx)), increment_exact
    by (rewrite MAX_EXACT_value; lia).
  rewrite (getNewItem_item (N.succ (N.succ itemIdx))), increment_exact
    by (rewrite MAX_EXACT_value; lia).
  rewrite (getNewItem_item (N.succ (N.succ (N.succ itemIdx)))),
    increment_exact by (rewrite MAX_EXACT_value; lia).
  rewrite getItems_run;
    [| vm_compute; split; discriminate
     | rewrite MAX_EXACT_value;
       change (Z.to_N 500) with 500%N; lia ].
  pose proof (NoDup_countFrom (N.succ (N.succ (N.succ (N.succ itemIdx))))
                (Z.to_nat 500)) as Hnd.
  pose proof (countFrom_bounds (N.succ (N.succ (N.succ (N.succ itemIdx))))
                (Z.to_nat 500)) as Hge.
  pose proof (length_countFrom (N.succ (N.succ (N.succ (N.succ itemIdx))))
                (Z.to_nat 500)) as Hlen.
  apply (Forall_impl _
           (fun x => (N.succ (N.succ (N.succ (N.succ itemIdx))) <= x)%N))
    in Hge; [| intros x Hx; cbn beta in Hx; lia ].
  set (i1 := N.succ itemIdx) in *.
  set (i2 := N.succ i1) in *.
  set (i3 := N.succ i2) in *.
  set (i4 := N.succ i3) in *.
  remember (RxIterableDiffer.countFrom i4 (Z.to_nat 500)) as tail
    eqn:Htail.
  clear Htail.
  set (item0 := RxIterableDiffer.itemAt itemIdx).
  set (item1 := RxIterableDiffer.itemAt i1).
  set (item2 := RxIterableDiffer.itemAt i2).
  set (item3 := RxIterableDiffer.itemAt i3).
  set (items5 := RxIterableDiffer.itemAt <$> tail).
  assert (Hids5 : RxIterableDiffer.id <$> items5 = pretty <$> tail)
    by apply ids_of_items.
  assert (Hlen5 : length items5 = Z.to_nat 500)
    by (unfold items5; rewrite length_fmap; exact Hlen).
  assert (Hfull : NoDup ([itemIdx; i1; i2; i3] ++ tail)).
  { apply (NoDup_front_tail _ _ i4); [| | exact Hge | exact Hnd].
    - repeat (apply NoDup_cons_2;
              [rewrite ?elem_of_cons, elem_of_nil; lia |]).
      apply NoDup_nil_2.
    - repeat (constructor; [lia |]). constructor. }
  assert (Hupd : NoDup ([itemIdx; i3; i2] ++ tail)).
  { apply (NoDup_front_tail _ _ i4); [| | exact Hge | exact Hnd].
    - repeat (apply NoDup_cons_2;
              [rewrite ?elem_of_cons, elem_of_nil; lia |]).
      apply NoDup_nil_2.
    - repeat (constructor; [lia |]). constructor. }
  assert (Hsmall : NoDup [itemIdx; i3; i2]).
  { repeat (apply NoDup_cons_2;
            [rewrite ?elem_of_cons, elem_of_nil; lia |]).
    apply NoDup_nil_2. }
  assert (Hmoved : NoDup ([itemIdx] ++ tail ++ [i1; i2; i3])).
  { assert (Hperm : [itemIdx] ++ tail ++ [i1; i2; i3]
                    ≡ₚ [itemIdx; i1; i2; i3] ++ tail).
    { cbn [app]. apply Permutation_cons; [reflexivity |].
      apply Permutation_app_comm. }
    rewrite Hperm. exact Hfull. }
  eexists. split; [cbv beta iota; f_equal; lia |]. split.
  - cbn [fmap list_fmap]. rewrite !length_app, Hlen5. reflexivity.
  - repeat apply Forall_cons_2; try apply Forall_nil_2.
    + apply (NoDup_keys _ []); [reflexivity | constructor].
    + apply (NoDup_keys _ ([itemIdx; i1; i2; i3] ++ tail));
        [rewrite !fmap_app, Hids5; reflexivity | exact Hfull].
    + apply (NoDup_keys _ ([itemIdx; i3; i2] ++ tail));
        [rewrite !fmap_app, Hids5; reflexivity | exact Hupd].
    + apply (NoDup_keys _ [itemIdx; i3; i2]); [reflexivity | exact Hsmall].
    + apply (NoDup_keys _ []); [reflexivity | constructor].
    + apply (NoDup_keys _ ([itemIdx; i3; i2] ++ tail));
        [rewrite !fmap_app, Hids5; reflexivity | exact Hupd].
    + apply (NoDup_keys _ ([itemIdx; i1; i2; i3] ++ tail));
        [rewrite !fmap_app, Hids5; reflexivity | exact Hfull].
    + apply (NoDup_keys _ [itemIdx; i3; i2]); [reflexivity | exact Hsmall].
    + apply (NoDup_keys _ []); [reflexivity | constructor].
    + apply (NoDup_keys _ ([itemIdx] ++ tail ++ [i1; i2; i3]));
        [rewrite !fmap_app, Hids5; reflexivity | exact Hmoved].
    + apply (NoDup_keys _ ([itemIdx; i3; i2] ++ tail));
        [rewrite !fmap_app, Hids5; reflexivity | exact Hupd].
    + apply (NoDup_keys _ [itemIdx; i3; i2]); [reflexivity | exact Hsmall].
Qed.

Lemma customChangeSet_keys_unique_witness :
  exists sets : list (list RxIterableDiffer.Item),
    RxIterableDiffer.customChangeSet = (inr sets, (0 + 504)%N) /\
    length <$> sets
      = [0; 504; 503; 3; 0; 503; 504; 3; 0; 504; 503; 3]%nat /\
    Forall (fun cs => NoDup (imap RxIterableDiffer.trackById cs)) sets.
Proof.
  apply (customChangeSet_keys_unique 0).
  vm_compute. discriminate.
Defined.

(** ** The render counter *)

Lemma mapIncrement_exact {A} (emitted : list A) (n : N) :
  (n + N.of_nat (length emitted) <= RxIterableDiffer.MAX_EXACT)%N ->
  RxIterableDiffer.mapIncrement emitted n
  = (RxIterableDiffer.countFrom (N.succ n) (length emitted),
     (n + N.of_nat (length emitted))%N).
Proof.
  revert n. induction emitted as [| x emitted IH]; intros n Hb.
  - cbn. f_equal. lia.
  - cbn [length] in *. cbn [RxIterableDiffer.mapIncrement].
    rewrite increment_exact by lia. rewrite IH by lia.
    rewrite countFrom_S. f_equal. lia.
Qed.

(** X14: [rendered$] counts.  For a subscriber that sees [k] render
    callbacks, with the field at [numRendered] when it subscribes, the
    stream shows [numRendered + 1], ..., [numRendered + k + 1], one
    value at subscription and one per callback, and leaves the field at
    [numRendered + k + 1]. *)
Theorem rendered_counts_callbacks {A} (renderCallback : list A)
    (numRendered : N) :
  (numRendered + N.of_nat (S (length renderCallback))
     <= RxIterableDiffer.MAX_EXACT)%N ->
  RxIterableDiffer.rendered renderCallback numRendered
  = (RxIterableDiffer.countFrom (N.succ numRendered)
       (S (length renderCallback)),
     (numRendered + N.of_nat (S (length renderCallback)))%N).
Proof.
  intros Hb. unfold RxIterableDiffer.rendered.
  rewrite mapIncrement_exact; cbn [length]; rewrite length_fmap;
    [reflexivity | exact Hb].
Qed.

Lemma rendered_counts_callbacks_witness :
  RxIterableDiffer.rendered [tt; tt] 0
  = (RxIterableDiffer.countFrom (N.succ 0) (S (length [tt; tt])),
     (0 + N.of_nat (S (length [tt; tt])))%N).
Proof.
  apply (rendered_counts_callbacks [tt; tt] 0).
  vm_compute. discriminate.
Defined.
